(** * List Your Problems API: the moderation-gated insert workflow of main.py

    A shallow embedding of [src/main.py]: the sqlite table [problems], the
    call to the external chat service, and the four FastAPI handlers, with
    the properties of the specification proved (or refuted) about them. *)

From Stdlib Require Import ZArith NArith List String Ascii Bool Lia.
From Stdlib Require Import DecimalString HexadecimalString.
From Stdlib Require Import Sorting.Sorted Sorting.Permutation.
Import ListNotations.
Open Scope Z_scope.

(** ** Python strings

    A Python [str] is a sequence of Unicode code points. *)

Definition str : Type := list N.

(** A source literal (the literals of main.py are ASCII). *)
Definition lit (s : string) : str := List.map N_of_ascii (list_ascii_of_string s).

Fixpoint str_eqb (a b : str) : bool :=
  match a, b with
  | [], [] => true
  | x :: a', y :: b' => N.eqb x y && str_eqb a' b'
  | _, _ => false
  end.

(** The code points that [str.strip()] removes (those for which
    [str.isspace] holds). *)
Definition is_space (c : N) : bool :=
  ((9 <=? c) && (c <=? 13) ||
   (28 <=? c) && (c <=? 32) ||
   (c =? 133) || (c =? 160) || (c =? 5760) ||
   (8192 <=? c) && (c <=? 8202) ||
   (c =? 8232) || (c =? 8233) || (c =? 8239) || (c =? 8287) ||
   (c =? 12288))%N.

Fixpoint lstrip (s : str) : str :=
  match s with
  | [] => []
  | c :: s' => if is_space c then lstrip s' else s
  end.

Definition rstrip (s : str) : str := rev (lstrip (rev s)).

Definition strip (s : str) : str := rstrip (lstrip s).

(** Truth value of a [str]: the empty string is falsy. *)
Definition truthy (s : str) : bool :=
  match s with [] => false | _ :: _ => true end.

(** ASCII case mapping, the restriction of [str.upper] to ASCII text. *)
Definition ascii_upper (s : str) : str :=
  List.map (fun c => if ((97 <=? c) && (c <=? 122))%N then (c - 32)%N else c) s.

(** ** Exceptions and HTTP outcomes *)

Inductive exc (A : Type) : Type :=
| Return (a : A)
| Raise (e : str).
Arguments Return {A} a.
Arguments Raise {A} e.

(** What FastAPI sends back for a handler: the returned value (status 200)
    or the [HTTPException] the handler raised. *)
Inductive http (A : Type) : Type :=
| Returned (body : A)
| HTTPException (status_code : Z) (detail : str).
Arguments Returned {A} body.
Arguments HTTPException {A} status_code detail.

Record Message : Type := { status : str; message : str }.

(** ** The table [problems] *)

Record Row : Type := {
  id : Z;
  problem : str;
  name : str;
  email : str;
  created_at : Z;   (* CURRENT_TIMESTAMP, in seconds: the fixed-width text
                       'YYYY-MM-DD HH:MM:SS' compares as the seconds do *)
  uuid : str
}.

(** The rows in rowid order, and the AUTOINCREMENT counter that sqlite
    keeps in [sqlite_sequence]. *)
Record Table : Type := { rows : list Row; sqlite_sequence : Z }.

(** A database holds the table [problems] or not. *)
Definition Database : Type := option Table.

(** The file [DB_NAME]: absent, or a database. *)
Definition Disk : Type := option Database.

(** The state between requests: the file, and the texts that were handed
    to the external chat service so far. *)
Record World : Type := { disk : Disk; gate_calls : list str }.

(** The state inside a handler: the database file as committed, the
    database as seen through the open connection (uncommitted changes
    included), and the texts sent to the chat service. *)
Record Session : Type := { file : Database; conn : Database; calls : list str }.

(** The table a connection finds: none when the file is absent (then
    [sqlite3.connect(DB_NAME)] creates an empty database) or holds no table. *)
Definition table_of (w : World) : Database :=
  match disk w with Some db => db | None => None end.

Definition connect (w : World) : Session :=
  {| file := table_of w; conn := table_of w; calls := gate_calls w |}.

(** [conn.close()]: what was not committed is lost. *)
Definition close (s : Session) : World :=
  {| disk := Some (file s); gate_calls := calls s |}.

(** ** The handler monad: state and exceptions *)

Definition M (A : Type) : Type := Session -> exc A * Session.

Definition ret {A : Type} (a : A) : M A := fun s => (Return a, s).

Definition raise {A : Type} (e : str) : M A := fun s => (Raise e, s).

Definition bind {A B : Type} (m : M A) (k : A -> M B) : M B :=
  fun s => match m s with
           | (Return a, s') => k a s'
           | (Raise e, s') => (Raise e, s')
           end.

Notation "x <- m ;; k" := (bind m (fun x => k))
  (at level 61, m at next level, right associativity).
Notation "m ;;; k" := (bind m (fun _ => k))
  (at level 61, right associativity).

(** ** The environment of one request *)

(** [chat_response.choices[0].message.content]: a [str], or [None], or a
    list of content chunks. *)
Inductive Content : Type :=
| Text (s : str)
| NoneContent
| Chunks.

(** The messages of a chat request: role and content. *)
Definition Messages : Type := list (str * str).

Record Env : Type := {
  (* mistral_client.chat.complete(model, messages), up to the content of
     the first choice: the answer of the service, or the exception of the
     call (network error, timeout, bad credential, no choice) *)
  chat_complete : str -> Messages -> exc Content;
  (* str(uuid.uuid4()) *)
  uuid4 : str;
  (* the store's clock at this request *)
  CURRENT_TIMESTAMP : Z;
  (* an I/O failure of sqlite (disk full, database locked) at the
     statement, resp. at the commit *)
  execute_fault : option str;
  commit_fault : option str
}.

(** ** sqlite statements *)

Definition max_rowid : Z := 9223372036854775807.

Definition largest_rowid (t : Table) : Z :=
  fold_right Z.max (sqlite_sequence t) (List.map id (rows t)).

Definition no_such_table : str := lit "no such table: problems".
Definition database_full : str := lit "database or disk is full".

(** sqlite3 binds a [str] parameter as UTF-8. A text that holds a
    surrogate code point has no UTF-8 encoding: the bind raises
    UnicodeEncodeError, whose message names the first run of surrogates. *)
Definition is_surrogate (c : N) : bool := ((55296 <=? c) && (c <=? 57343))%N.

Fixpoint surrogate_run (s : str) : N :=
  match s with
  | [] => 0
  | c :: s' => if is_surrogate c then 1 + surrogate_run s' else 0
  end%N.

Definition decimal (n : N) : str :=
  lit (DecimalString.NilZero.string_of_uint (N.to_uint n)).

Definition hexadecimal (n : N) : str :=
  lit (HexadecimalString.NilZero.string_of_uint (N.to_hex_uint n)).

Fixpoint encode_error_from (pos : N) (s : str) : option str :=
  match s with
  | [] => None
  | c :: s' =>
    if is_surrogate c then
      Some (lit "'utf-8' codec can't encode "
            ++ (if (surrogate_run s' =? 0)%N
                then lit "character '\u" ++ hexadecimal c
                     ++ lit "' in position " ++ decimal pos
                else lit "characters in position " ++ decimal pos
                     ++ lit "-" ++ decimal (pos + surrogate_run s'))
            ++ lit ": surrogates not allowed")%list
    else encode_error_from (pos + 1) s'
  end.

(** The error of the first parameter that cannot be bound, if any. *)
Fixpoint bind_error (params : list str) : option str :=
  match params with
  | [] => None
  | x :: rest =>
    match encode_error_from 0 x with
    | Some e => Some e
    | None => bind_error rest
    end
  end.

(** INSERT INTO problems (problem, name, email, uuid) VALUES (?, ?, ?, ?):
    the statement is prepared (the table must be there), its parameters
    are bound, and the row gets the next AUTOINCREMENT id. *)
Definition execute_insert (env : Env) (values : str * str * str * str) : M unit :=
  fun s =>
    match execute_fault env with
    | Some e => (Raise e, s)
    | None =>
      match conn s with
      | None => (Raise no_such_table, s)
      | Some t =>
        let '(p, n, e, u) := values in
        match bind_error [p; n; e; u] with
        | Some err => (Raise err, s)
        | None =>
          if largest_rowid t =? max_rowid then (Raise database_full, s)
          else
            let r := {| id := largest_rowid t + 1; problem := p; name := n;
                        email := e; created_at := CURRENT_TIMESTAMP env;
                        uuid := u |} in
            (Return tt,
             {| file := file s;
                conn := Some {| rows := rows t ++ [r]; sqlite_sequence := id r |};
                calls := calls s |})
        end
      end
    end.

(** ORDER BY created_at DESC: sqlite's sorter keeps rows with equal keys in
    scan order. *)
Fixpoint insert_desc (r : Row) (l : list Row) : list Row :=
  match l with
  | [] => [r]
  | x :: l' =>
    if created_at r <? created_at x then x :: insert_desc r l' else r :: l
  end.

Definition order_by_created_at_desc (l : list Row) : list Row :=
  fold_right insert_desc [] l.

(** SELECT id, problem, name, created_at FROM problems ORDER BY created_at DESC *)
Definition execute_select_ordered (env : Env) : M (list Row) :=
  fun s =>
    match execute_fault env with
    | Some e => (Raise e, s)
    | None =>
      match conn s with
      | None => (Raise no_such_table, s)
      | Some t => (Return (order_by_created_at_desc (rows t)), s)
      end
    end.

(** SELECT * FROM problems *)
Definition execute_select_all (env : Env) : M (list Row) :=
  fun s =>
    match execute_fault env with
    | Some e => (Raise e, s)
    | None =>
      match conn s with
      | None => (Raise no_such_table, s)
      | Some t => (Return (rows t), s)
      end
    end.

(** DELETE FROM problems WHERE uuid = ? *)
Definition execute_delete (env : Env) (u : str) : M unit :=
  fun s =>
    match execute_fault env with
    | Some e => (Raise e, s)
    | None =>
      match conn s with
      | None => (Raise no_such_table, s)
      | Some t =>
        (Return tt,
         {| file := file s;
            conn := Some {| rows := filter (fun r => negb (str_eqb (uuid r) u)) (rows t);
                            sqlite_sequence := sqlite_sequence t |};
            calls := calls s |})
      end
    end.

(** CREATE TABLE IF NOT EXISTS problems (...) *)
Definition execute_create (s : Session) : Session :=
  match conn s with
  | Some _ => s
  | None => {| file := file s;
               conn := Some {| rows := []; sqlite_sequence := 0 |};
               calls := calls s |}
  end.

(** A commit that goes through writes the changes to the file. *)
Definition committed (s : Session) : Session :=
  {| file := conn s; conn := conn s; calls := calls s |}.

Definition commit (env : Env) : M unit :=
  fun s =>
    match commit_fault env with
    | Some e => (Raise e, s)
    | None => (Return tt, committed s)
    end.

Definition rollback (s : Session) : Session :=
  {| file := file s; conn := file s; calls := calls s |}.

(** ** main.py *)

Definition attribute_error (c : Content) : str :=
  match c with
  | NoneContent => lit "'NoneType' object has no attribute 'upper'"
  | _ => lit "'list' object has no attribute 'upper'"
  end.

Definition msg_empty : str := lit "Problem description cannot be empty".
Definition msg_added : Message :=
  {| status := lit "success"; message := lit "Entry added successfully" |}.
Definition msg_flagged : Message :=
  {| status := lit "error";
     message := lit "Entry not added because it was flagged as potentially offensive" |}.
Definition msg_deleted : Message :=
  {| status := lit "success"; message := lit "Entry deleted successfully" |}.
Definition database_error (e : str) : str := (lit "Database error: " ++ e)%list.
Definition YES : str := lit "YES".
Definition mistral_large_latest : str := lit "mistral-large-latest".

Definition system_prompt : str :=
  lit "You are a helpful assistant that determines if the given statement is obscene, racist, sexist, or offensive or not (to a huge degree). You will output a YES if it passes the test
            i.e it is not obscene, racist, sexist, or offensive to anyone. You will output a NO if it can potentially be obscene, racist, sexist, or offensive to anyone.
            Also output NO to obviously stupid jokes and statments which are calling me (Prateek) names or are just crass jokes which are not worth storing in the database and are obviously not real problems.
            Again you need to output only YES or NO.".

Definition messages (problem : str) : Messages :=
  [ (lit "system", system_prompt); (lit "user", problem) ].

(** What the chat service answers when [get_mistral_response] is called on
    a text with the default model. *)
Definition reply (env : Env) (problem : str) : exc Content :=
  chat_complete env mistral_large_latest (messages problem).

Record ProblemEntry : Type := { entry_problem : str; entry_name : str; entry_email : str }.

(** The body as pydantic builds it: [name] and [email] have defaults. *)
Definition parse_entry (p : str) (n e : option str) : ProblemEntry :=
  {| entry_problem := p;
     entry_name := match n with Some n => n | None => lit "Anonymous" end;
     entry_email := match e with Some e => e | None => [] end |}.

(** The fields of a row that /get_all_entries returns. *)
Record EntryView : Type := {
  view_id : Z; view_problem : str; view_name : str; view_created_at : Z
}.

Definition view (r : Row) : EntryView :=
  {| view_id := id r; view_problem := problem r; view_name := name r;
     view_created_at := created_at r |}.

(** The call of the chat service; the text sent is recorded. *)
Definition get_mistral_response (env : Env) (problem model : str) : M Content :=
  fun s =>
    (chat_complete env model (messages problem),
     {| file := file s; conn := conn s; calls := (calls s ++ [problem])%list |}).

(** [init_db] runs when the module is loaded, outside any handler: the
    statements of a first start are taken to go through. *)
Definition init_db (w : World) : World :=
  match disk w with
  | Some _ => w                      (* os.path.exists(DB_NAME) *)
  | None => close (committed (execute_create (connect w)))
  end.

Section Handlers.

(** [str.upper], Python's Unicode case mapping. *)
Variable upper : str -> str.

(** [mistral_response.upper()] *)
Definition content_upper (c : Content) : M str :=
  match c with
  | Text r => ret (upper r)
  | _ => raise (attribute_error c)
  end.

(** The [try] block of [add_entry]. *)
Definition add_entry_try (env : Env) (entry : ProblemEntry) (uuid_str : str)
  : M Message :=
  mistral_response <- get_mistral_response env (entry_problem entry)
                      mistral_large_latest ;;
  up <- content_upper mistral_response ;;
  if str_eqb up YES then
    execute_insert env (entry_problem entry, entry_name entry,
                        entry_email entry, uuid_str) ;;;
    commit env ;;;
    ret msg_added
  else
    ret msg_flagged.

Definition add_entry (env : Env) (entry : ProblemEntry) (w : World)
  : http Message * World :=
  if negb (truthy (strip (entry_problem entry))) then
    (HTTPException 400 msg_empty, w)
  else
    let uuid_str := uuid4 env in
    match add_entry_try env entry uuid_str (connect w) with
    | (Return body, s) => (Returned body, close s)
    | (Raise e, s) =>
      (HTTPException 500 (database_error e), close (rollback s))
    end.

Definition get_all_entries (env : Env) (w : World)
  : http (list EntryView) * World :=
  match (entries <- execute_select_ordered env ;;
         ret (List.map view entries)) (connect w) with
  | (Return result, s) => (Returned result, close s)
  | (Raise e, s) => (HTTPException 500 (database_error e), close s)
  end.

Definition delete_entry (env : Env) (u : str) (w : World)
  : http Message * World :=
  match (execute_delete env u ;;;
         commit env ;;;
         ret msg_deleted) (connect w) with
  | (Return body, s) => (Returned body, close s)
  | (Raise e, s) => (HTTPException 500 (database_error e), close s)
  end.

Definition get_all_data (env : Env) (w : World)
  : http (list Row) * World :=
  match execute_select_all env (connect w) with
  | (Return result, s) => (Returned result, close s)
  | (Raise e, s) => (HTTPException 500 (database_error e), close s)
  end.

End Handlers.

Arguments lit : simpl never.

(** ** Predicates, runs and fixtures of the statements *)

(** The world a handler leaves when it closes its connection without a
    commit: the file exists, its table is as it was. *)
Definition closed (w : World) (sent : list str) : World :=
  {| disk := Some (table_of w); gate_calls := (gate_calls w ++ sent)%list |}.

(** The row an INSERT builds. *)
Definition new_row (env : Env) (entry : ProblemEntry) (t : Table) : Row :=
  {| id := largest_rowid t + 1;
     problem := entry_problem entry;
     name := entry_name entry;
     email := entry_email entry;
     created_at := CURRENT_TIMESTAMP env;
     uuid := uuid4 env |}.

Definition table_with (t : Table) (r : Row) : Table :=
  {| rows := rows t ++ [r]; sqlite_sequence := id r |}.

(** The INSERT and the commit of [add_entry] go through: no I/O failure,
    the table is there, the four texts can be bound and the rowids are not
    used up. *)
Definition store_ready (env : Env) (entry : ProblemEntry) (w : World) : Prop :=
  execute_fault env = None /\ commit_fault env = None /\
  bind_error [entry_problem entry; entry_name entry; entry_email entry;
              uuid4 env] = None /\
  exists t, table_of w = Some t /\ largest_rowid t <> max_rowid.

(** The INSERT or the commit of [add_entry] raises [e]. *)
Definition insert_fails (env : Env) (entry : ProblemEntry) (w : World) (e : str) : Prop :=
  exists s,
    (execute_insert env (entry_problem entry, entry_name entry,
                         entry_email entry, uuid4 env) ;;; commit env)
      {| file := table_of w; conn := table_of w;
         calls := (gate_calls w ++ [entry_problem entry])%list |}
    = (Raise e, s).

(** The paths through [add_entry], one constructor per way out of the
    handler. *)
Inductive add_entry_path (upper : str -> str) (env : Env) (entry : ProblemEntry)
  (w : World) : http Message * World -> Prop :=
| path_invalid :
    truthy (strip (entry_problem entry)) = false ->
    add_entry_path upper env entry w (HTTPException 400 msg_empty, w)
| path_gate_raises e :
    truthy (strip (entry_problem entry)) = true ->
    reply env (entry_problem entry) = Raise e ->
    add_entry_path upper env entry w
      (HTTPException 500 (database_error e), closed w [entry_problem entry])
| path_not_str c :
    truthy (strip (entry_problem entry)) = true ->
    reply env (entry_problem entry) = Return c ->
    (forall r, c <> Text r) ->
    add_entry_path upper env entry w
      (HTTPException 500 (database_error (attribute_error c)),
       closed w [entry_problem entry])
| path_flagged r :
    truthy (strip (entry_problem entry)) = true ->
    reply env (entry_problem entry) = Return (Text r) ->
    upper r <> YES ->
    add_entry_path upper env entry w
      (Returned msg_flagged, closed w [entry_problem entry])
| path_insert_fails r e :
    truthy (strip (entry_problem entry)) = true ->
    reply env (entry_problem entry) = Return (Text r) ->
    upper r = YES ->
    insert_fails env entry w e ->
    add_entry_path upper env entry w
      (HTTPException 500 (database_error e), closed w [entry_problem entry])
| path_stored r t :
    truthy (strip (entry_problem entry)) = true ->
    reply env (entry_problem entry) = Return (Text r) ->
    upper r = YES ->
    store_ready env entry w ->
    table_of w = Some t ->
    add_entry_path upper env entry w
      (Returned msg_added,
       {| disk := Some (Some (table_with t (new_row env entry t)));
          gate_calls := (gate_calls w ++ [entry_problem entry])%list |}).

(** [add_entry] appended one row to the table. *)
Definition stores_a_row (w w' : World) : Prop :=
  exists t t' r,
    table_of w = Some t /\ table_of w' = Some t' /\ rows t' = (rows t ++ [r])%list.

(** A service double: the chat service gives [answer], [uuid4] gives [u],
    the clock reads [now], sqlite has no I/O failure. *)
Definition service (answer : exc Content) (u : string) (now : Z) : Env :=
  {| chat_complete := fun _ _ => answer; uuid4 := lit u;
     CURRENT_TIMESTAMP := now; execute_fault := None; commit_fault := None |}.

Definition says (answer : string) : exc Content := Return (Text (lit answer)).

(** No [problems.db] yet, and the store after the first start. *)
Definition no_file : World := {| disk := None; gate_calls := [] |}.

Definition started : World := init_db no_file.

Definition car : ProblemEntry :=
  parse_entry (lit "My car won't start") (Some (lit "Alice")) None.

Definition padded : ProblemEntry :=
  parse_entry (lit "  the lift is stuck  ") None None.

(** A commit that fails after the INSERT went through. *)
Definition commit_fails : Env :=
  {| chat_complete := fun _ _ => says "YES"; uuid4 := lit "7d0c";
     CURRENT_TIMESTAMP := 100; execute_fault := None;
     commit_fault := Some (lit "disk I/O error") |}.

(** A database file without the table. *)
Definition empty_file : World := {| disk := Some None; gate_calls := [] |}.

Definition empty_table : Table := {| rows := []; sqlite_sequence := 0 |}.

Definition has_uuid (u : str) (r : Row) : bool := str_eqb (uuid r) u.

(** [a] occurs in [l] ahead of an occurrence of [b]. *)
Inductive before {A : Type} (a b : A) : list A -> Prop :=
| before_here l : In b l -> before a b (a :: l)
| before_later x l : before a b l -> before a b (x :: l).

Definition not_older (a b : Row) : Prop := created_at a >= created_at b.

(** Two submissions accepted within the same second. *)
Definition first_entry : ProblemEntry := parse_entry (lit "A") None None.
Definition second_entry : ProblemEntry := parse_entry (lit "B") None None.

Definition after_first : World :=
  snd (add_entry ascii_upper (service (says "YES") "uuid-A" 100) first_entry started).

Definition after_second : World :=
  snd (add_entry ascii_upper (service (says "YES") "uuid-B" 100) second_entry
         after_first).

Definition first_view : EntryView :=
  {| view_id := 1; view_problem := lit "A"; view_name := lit "Anonymous";
     view_created_at := 100 |}.

Definition second_view : EntryView :=
  {| view_id := 2; view_problem := lit "B"; view_name := lit "Anonymous";
     view_created_at := 100 |}.

Inductive Request : Type :=
| AddEntry (entry : ProblemEntry)
| GetAllEntries
| DeleteEntry (u : str)
| GetAllData.

(** The world after a request, served in its environment. *)
Definition serve (upper : str -> str) (env : Env) (rq : Request) (w : World)
  : World :=
  match rq with
  | AddEntry entry => snd (add_entry upper env entry w)
  | GetAllEntries => snd (get_all_entries env w)
  | DeleteEntry u => snd (delete_entry env u w)
  | GetAllData => snd (get_all_data env w)
  end.

Fixpoint run (upper : str -> str) (reqs : list (Env * Request)) (w : World)
  : World :=
  match reqs with
  | [] => w
  | (env, rq) :: rest => run upper rest (serve upper env rq w)
  end.

(** The uuid that a request stored: the one of an [add_entry] that answered
    success. *)
Definition stored_by (upper : str -> str) (env : Env) (rq : Request) (w : World)
  : list str :=
  match rq with
  | AddEntry entry =>
    match fst (add_entry upper env entry w) with
    | Returned m => if str_eqb (status m) (lit "success") then [uuid4 env] else []
    | HTTPException _ _ => []
    end
  | _ => []
  end.

(** The uuids of all the entries that a run inserted, in order. *)
Fixpoint inserted (upper : str -> str) (reqs : list (Env * Request)) (w : World)
  : list str :=
  match reqs with
  | [] => []
  | (env, rq) :: rest =>
    (stored_by upper env rq w ++ inserted upper rest (serve upper env rq w))%list
  end.

(** The uuids that [uuid.uuid4()] produced for the submissions of a run. *)
Fixpoint drawn (reqs : list (Env * Request)) : list str :=
  match reqs with
  | [] => []
  | (env, AddEntry _) :: rest => uuid4 env :: drawn rest
  | _ :: rest => drawn rest
  end.

Definition stored_uuids (w : World) : list str :=
  match table_of w with
  | Some t => List.map uuid (rows t)
  | None => []
  end.


(** ** Restarts, and the steps of a table *)

(** The life of the service: requests, and starts of the process (which
    run [init_db]). *)
Inductive Event : Type :=
| Served (env : Env) (rq : Request)
| Restart.

Fixpoint life (upper : str -> str) (evs : list Event) (w : World) : World :=
  match evs with
  | [] => w
  | Served env rq :: rest => life upper rest (serve upper env rq w)
  | Restart :: rest => life upper rest (init_db w)
  end.

(** The table without the rows of a uuid. *)
Definition without (u : str) (t : Table) : Table :=
  {| rows := filter (fun r => negb (has_uuid u r)) (rows t);
     sqlite_sequence := sqlite_sequence t |}.

(** What one request can do to the table: nothing, the INSERT of a valid
    submission, the DELETE of a uuid. *)
Inductive table_step (t : Table) : Table -> Prop :=
| step_same : table_step t t
| step_insert env entry :
    truthy (strip (entry_problem entry)) = true ->
    table_step t (table_with t (new_row env entry t))
| step_delete u : table_step t (without u t).

(** Zero or more steps. *)
Inductive table_steps (t : Table) : Table -> Prop :=
| steps_none : table_steps t t
| steps_more t1 t2 : table_steps t t1 -> table_step t1 t2 -> table_steps t t2.

(** The ids grow along the table and stay below the AUTOINCREMENT counter. *)
Definition ids_ascending (t : Table) : Prop :=
  StronglySorted Z.lt (List.map id (rows t)) /\
  Forall (fun r => id r <= sqlite_sequence t) (rows t).

(** The ids after some steps: still ascending, the counter not lower, and
    every row either a row of before or one with an id above the counter
    of before. *)
Definition grown (t t' : Table) : Prop :=
  ids_ascending t' /\
  sqlite_sequence t <= sqlite_sequence t' /\
  Forall (fun r => In r (rows t) \/ sqlite_sequence t < id r) (rows t').

(** Every stored text passes the validation of [add_entry]. *)
Definition texts_valid (t : Table) : Prop :=
  Forall (fun r => truthy (strip (problem r)) = true) (rows t).

(** A text made of whitespace only (the empty text included). *)
Definition blank (s : str) : bool := forallb is_space s.

(** A life of the service after its first start: a submission, its
    deletion, a restart, another submission and a blank one. *)
Definition a_life : list Event :=
  [ Served (service (says "YES") "uuid-A" 100) (AddEntry first_entry);
    Served (service (says "YES") "-" 130) (DeleteEntry (lit "uuid-A"));
    Restart;
    Served (service (says "YES") "uuid-B" 160) (AddEntry second_entry);
    Served (service (says "YES") "uuid-C" 190)
           (AddEntry (parse_entry (lit "  ") None None)) ].

(** ** Basic facts *)

Lemma str_eqb_eq (a b : str) : str_eqb a b = true <-> a = b.
Proof.
  revert b; induction a as [|x a IH]; intros [|y b]; simpl; split; intro H;
    try reflexivity; try discriminate.
  - apply andb_true_iff in H as [Hx Hab].
    apply N.eqb_eq in Hx. apply IH in Hab. congruence.
  - injection H as -> ->. apply andb_true_iff. split.
    + apply N.eqb_refl.
    + now apply IH.
Qed.

Lemma str_eqb_neq (a b : str) : str_eqb a b = false <-> a <> b.
Proof.
  split.
  - intros H E. apply str_eqb_eq in E. congruence.
  - intro H. destruct (str_eqb a b) eqn:E; [|reflexivity].
    apply str_eqb_eq in E. contradiction.
Qed.


Lemma table_of_closed (w : World) (sent : list str) :
  table_of (closed w sent) = table_of w.
Proof. reflexivity. Qed.

Section AddEntryPaths.

Variable upper : str -> str.
Variables (env : Env) (entry : ProblemEntry) (w : World).

Let p := entry_problem entry.

Lemma add_entry_blank :
  truthy (strip p) = false ->
  add_entry upper env entry w = (HTTPException 400 msg_empty, w).
Proof. unfold add_entry. fold p. now intros ->. Qed.

Hypothesis valid : truthy (strip p) = true.

Lemma add_entry_gate_raises (e : str) :
  reply env p = Raise e ->
  add_entry upper env entry w
  = (HTTPException 500 (database_error e), closed w [p]).
Proof.
  intro Hc. unfold add_entry. fold p. rewrite valid. cbn [negb].
  unfold add_entry_try, bind, get_mistral_response.
  fold p. fold (reply env p). now rewrite Hc.
Qed.

Lemma add_entry_not_str (c : Content) :
  reply env p = Return c ->
  (forall r, c <> Text r) ->
  add_entry upper env entry w
  = (HTTPException 500 (database_error (attribute_error c)), closed w [p]).
Proof.
  intros Hc Hn. unfold add_entry. fold p. rewrite valid. cbn [negb].
  unfold add_entry_try, bind, get_mistral_response.
  fold p. fold (reply env p). rewrite Hc.
  destruct c as [r| |]; [now destruct (Hn r)| |]; reflexivity.
Qed.

Lemma add_entry_flagged (r : str) :
  reply env p = Return (Text r) ->
  upper r <> YES ->
  add_entry upper env entry w = (Returned msg_flagged, closed w [p]).
Proof.
  intros Hc Hn. apply str_eqb_neq in Hn.
  unfold add_entry. fold p. rewrite valid. cbn [negb].
  unfold add_entry_try, bind, get_mistral_response.
  fold p. fold (reply env p). rewrite Hc.
  cbn [content_upper ret]. now rewrite Hn.
Qed.

Lemma add_entry_insert_fails (r e : str) :
  reply env p = Return (Text r) ->
  upper r = YES ->
  insert_fails env entry w e ->
  add_entry upper env entry w
  = (HTTPException 500 (database_error e), closed w [p]).
Proof.
  intros Hc Hy [s Hs]. apply str_eqb_eq in Hy.
  unfold add_entry. fold p. rewrite valid. cbn [negb].
  unfold add_entry_try, get_mistral_response. fold p. fold (reply env p).
  unfold bind at 1. rewrite Hc. unfold bind at 1.
  cbn [content_upper ret]. rewrite Hy.
  revert Hs. unfold bind, execute_insert, commit, connect. fold p.
  cbn [conn file calls].
  destruct (execute_fault env); [intros [= <- <-]; reflexivity|].
  destruct (table_of w) as [t|] eqn:Ht;
    [|intros [= <- <-]; unfold closed; now rewrite Ht].
  destruct (bind_error _);
    [intros [= <- <-]; unfold closed; now rewrite Ht|].
  destruct (largest_rowid t =? max_rowid);
    [intros [= <- <-]; unfold closed; now rewrite Ht|].
  destruct (commit_fault env); [|discriminate].
  intros [= <- <-]. unfold closed. now rewrite Ht.
Qed.

Lemma add_entry_stored (r : str) (t : Table) :
  reply env p = Return (Text r) ->
  upper r = YES ->
  store_ready env entry w ->
  table_of w = Some t ->
  add_entry upper env entry w
  = (Returned msg_added,
     {| disk := Some (Some (table_with t (new_row env entry t)));
        gate_calls := (gate_calls w ++ [p])%list |}).
Proof.
  intros Hc Hy (Hx & Hk & Hb & t0 & Ht0 & Hm) Ht.
  rewrite Ht in Ht0. injection Ht0 as <-.
  apply str_eqb_eq in Hy. apply Z.eqb_neq in Hm.
  unfold add_entry. fold p. rewrite valid. cbn [negb].
  unfold add_entry_try, get_mistral_response. fold p. fold (reply env p).
  unfold bind at 1. rewrite Hc. unfold bind at 1.
  cbn [content_upper ret]. rewrite Hy.
  unfold bind, execute_insert, commit, connect.
  cbn [conn file calls]. unfold p. now rewrite Hx, Ht, Hb, Hm, Hk.
Qed.

(** Without I/O failure, absent table, unencodable text or used-up rowids
    the INSERT and the commit go through. *)
Lemma insert_fails_not_ready (e : str) :
  insert_fails env entry w e -> ~ store_ready env entry w.
Proof.
  intros [s Hs] (Hx & Hk & Hb & t & Ht & Hm). apply Z.eqb_neq in Hm.
  revert Hs. unfold bind, execute_insert, commit. cbn [conn file calls].
  now rewrite Hx, Ht, Hb, Hm, Hk.
Qed.

End AddEntryPaths.

Lemma insert_fails_or_ready (env : Env) (entry : ProblemEntry) (w : World) :
  (exists e, insert_fails env entry w e) \/ store_ready env entry w.
Proof.
  unfold insert_fails, store_ready, bind, execute_insert, commit.
  cbn [conn file calls].
  destruct (execute_fault env) as [e|]; [left; now exists e; eexists|].
  destruct (table_of w) as [t|]; [|left; now exists no_such_table; eexists].
  destruct (bind_error _) as [e|]; [left; now exists e; eexists|].
  destruct (largest_rowid t =? max_rowid) eqn:Hm;
    [left; now exists database_full; eexists|].
  destruct (commit_fault env) as [e|]; [left; now exists e; eexists|].
  right. repeat split. exists t. split; [reflexivity|now apply Z.eqb_neq].
Qed.

Lemma add_entry_paths (upper : str -> str) (env : Env) (entry : ProblemEntry)
  (w : World) :
  add_entry_path upper env entry w (add_entry upper env entry w).
Proof.
  destruct (truthy (strip (entry_problem entry))) eqn:Hv.
  2: { rewrite add_entry_blank by assumption. now constructor. }
  destruct (reply env (entry_problem entry)) as [c|e] eqn:Hc.
  2: { rewrite (add_entry_gate_raises upper env entry w Hv e Hc).
       now constructor. }
  destruct c as [r| |].
  2,3: rewrite (add_entry_not_str upper env entry w Hv _ Hc) by discriminate;
       now constructor.
  destruct (str_eqb (upper r) YES) eqn:Hy.
  2: { apply str_eqb_neq in Hy.
       rewrite (add_entry_flagged upper env entry w Hv r Hc Hy).
       now apply path_flagged with r. }
  apply str_eqb_eq in Hy.
  destruct (insert_fails_or_ready env entry w) as [[e He]|Hr].
  - rewrite (add_entry_insert_fails upper env entry w Hv r e Hc Hy He).
    now apply path_insert_fails with r.
  - pose proof Hr as (_ & _ & _ & t & Ht & _).
    rewrite (add_entry_stored upper env entry w Hv r t Hc Hy Hr Ht).
    now apply path_stored with r.
Qed.

Lemma not_stored_when_unchanged (w w' : World) :
  table_of w' = table_of w -> ~ stores_a_row w w'.
Proof.
  intros E (t & t' & r & Ht & Ht' & Hr). rewrite E, Ht in Ht'.
  injection Ht' as <-. apply (f_equal (@List.length Row)) in Hr.
  rewrite length_app in Hr. cbn in Hr. lia.
Qed.

(** ** The submission workflow *)

Section Submission.

Variable upper : str -> str.
Variables (env : Env) (entry : ProblemEntry) (w : World).

Let p := entry_problem entry.
Let res := add_entry upper env entry w.

(** C1, as the code has it. For a submission whose text passes validation,
    an answer of the chat service that is a text, and a store that takes
    the INSERT, [add_entry] stores a row if and only if the answer,
    upper-cased, is the token YES. Any other text answer is treated as a
    rejection: the flagged body, the table as it was. An answer that is no
    text (None, a list of chunks) is not: [.upper()] raises, [add_entry]
    answers 500, and no row is inserted. Whatever is not a YES inserts no
    row. *)
Theorem add_entry_stores_iff_yes :
  (truthy (strip p) = true -> store_ready env entry w ->
   forall r, reply env p = Return (Text r) ->
     (stores_a_row w (snd res) <-> upper r = YES)) /\
  (truthy (strip p) = true ->
   forall r, reply env p = Return (Text r) -> upper r <> YES ->
     fst res = Returned msg_flagged /\ table_of (snd res) = table_of w) /\
  (truthy (strip p) = true ->
   forall c, reply env p = Return c -> (forall r, c <> Text r) ->
     fst res = HTTPException 500 (database_error (attribute_error c)) /\
     fst res <> Returned msg_flagged /\
     table_of (snd res) = table_of w) /\
  ((forall r, reply env p = Return (Text r) -> upper r <> YES) ->
   table_of (snd res) = table_of w).
Proof.
  subst res p. split; [|split; [|split]].
  - intros Hv Hr r Hc. pose proof Hr as (_ & _ & _ & t & Ht & _).
    destruct (str_eqb (upper r) YES) eqn:Hy.
    + apply str_eqb_eq in Hy. split; [intros _; exact Hy|intros _].
      rewrite (add_entry_stored upper env entry w Hv r t Hc Hy Hr Ht).
      exists t, (table_with t (new_row env entry t)), (new_row env entry t).
      now repeat split.
    + apply str_eqb_neq in Hy. split; [|intro; contradiction].
      rewrite (add_entry_flagged upper env entry w Hv r Hc Hy).
      intro Hs. exfalso. revert Hs. apply not_stored_when_unchanged.
      apply table_of_closed.
  - intros Hv r Hc Hy.
    rewrite (add_entry_flagged upper env entry w Hv r Hc Hy).
    split; [reflexivity|apply table_of_closed].
  - intros Hv c Hc Hn.
    rewrite (add_entry_not_str upper env entry w Hv c Hc Hn). cbn [fst snd].
    split; [reflexivity|]. split; [discriminate|apply table_of_closed].
  - intro Hno.
    destruct (add_entry_paths upper env entry w);
      try reflexivity; try apply table_of_closed.
    exfalso. now apply (Hno r).
Qed.

(** C2. A submission that the gate classifies REJECT (a text answer that
    is not YES once upper-cased) stores no row and gets a returned body,
    not an HTTP error: status "error" with the flagged message. That body
    is returned on no other path, so it tells rejection apart from the
    validation and the infrastructure failures. *)
Theorem add_entry_reject_is_normal_outcome (r : str) :
  truthy (strip p) = true ->
  reply env p = Return (Text r) ->
  upper r <> YES ->
  fst res
  = Returned {| status := lit "error";
                message := lit "Entry not added because it was flagged as potentially offensive" |} /\
  table_of (snd res) = table_of w /\
  ~ stores_a_row w (snd res) /\
  (forall code detail, fst res <> HTTPException code detail) /\
  (forall env' entry' w',
      fst (add_entry upper env' entry' w') = fst res ->
      truthy (strip (entry_problem entry')) = true /\
      exists r', reply env' (entry_problem entry') = Return (Text r') /\
                 upper r' <> YES).
Proof.
  subst res p. intros Hv Hc Hy.
  rewrite (add_entry_flagged upper env entry w Hv r Hc Hy). cbn [fst snd].
  split; [reflexivity|]. split; [apply table_of_closed|].
  split; [apply not_stored_when_unchanged, table_of_closed|].
  split; [discriminate|].
  intros env' entry' w' H.
  destruct (add_entry_paths upper env' entry' w') as [| | |r'| |];
    cbn [fst] in H; try discriminate.
  split; [assumption|]. now exists r'.
Qed.

(** C3. A submission whose text is empty once trimmed fails with status
    400 whatever the environment is; the world is left exactly as it was:
    no row is added and the chat service is not called. *)
Theorem add_entry_blank_is_invalid :
  strip p = [] ->
  res = (HTTPException 400 (lit "Problem description cannot be empty"), w) /\
  table_of (snd res) = table_of w /\
  gate_calls (snd res) = gate_calls w /\
  (forall env', add_entry upper env' entry w = res).
Proof.
  subst res p. intro Hb.
  assert (Hv : truthy (strip (entry_problem entry)) = false) by now rewrite Hb.
  rewrite (add_entry_blank upper env entry w Hv).
  repeat split. intro env'. now apply add_entry_blank.
Qed.

(** C4. When the call to the chat service raises (an error, a timeout),
    [add_entry] fails with status 500: it does not answer success, it
    stores no row and leaves the table as it was. *)
Theorem add_entry_gate_failure_is_500 (e : str) :
  truthy (strip p) = true ->
  reply env p = Raise e ->
  fst res = HTTPException 500 (lit "Database error: " ++ e)%list /\
  fst res <> Returned msg_added /\
  table_of (snd res) = table_of w /\
  ~ stores_a_row w (snd res).
Proof.
  subst res p. intros Hv Hc.
  rewrite (add_entry_gate_raises upper env entry w Hv e Hc). cbn [fst snd].
  split; [reflexivity|]. split; [discriminate|].
  split; [apply table_of_closed|].
  apply not_stored_when_unchanged, table_of_closed.
Qed.

(** C5. When the INSERT or its commit fails for an accepted submission,
    [add_entry] fails with status 500; the [try] block ended with the
    committed file as it was, the rollback resets the connection to it
    before the error leaves the handler, and the table afterwards is the
    table before. *)
Theorem add_entry_insert_failure_rolls_back (r e : str) :
  truthy (strip p) = true ->
  reply env p = Return (Text r) ->
  upper r = YES ->
  insert_fails env entry w e ->
  fst res = HTTPException 500 (lit "Database error: " ++ e)%list /\
  table_of (snd res) = table_of w /\
  ~ stores_a_row w (snd res) /\
  exists s,
    add_entry_try upper env entry (uuid4 env) (connect w) = (Raise e, s) /\
    file s = table_of w /\
    conn (rollback s) = table_of w /\
    snd res = close (rollback s).
Proof.
  subst res p. intros Hv Hc Hy Hf.
  rewrite (add_entry_insert_fails upper env entry w Hv r e Hc Hy Hf).
  cbn [fst snd].
  split; [reflexivity|]. split; [apply table_of_closed|].
  split; [apply not_stored_when_unchanged, table_of_closed|].
  destruct Hf as [s Hs]. apply str_eqb_eq in Hy.
  unfold add_entry_try, get_mistral_response.
  fold (reply env (entry_problem entry)).
  unfold bind at 1. rewrite Hc. unfold bind at 1.
  cbn [content_upper ret]. rewrite Hy. unfold connect. cbn [conn file calls].
  revert Hs. unfold bind, execute_insert, commit. cbn [conn file calls].
  destruct (execute_fault env);
    [intros [= <- <-]; eexists; repeat split; reflexivity|].
  destruct (table_of w) as [t|] eqn:Ht.
  2: { intros [= <- <-]. eexists. split; [reflexivity|].
       unfold closed, close, rollback. cbn. now rewrite Ht. }
  destruct (bind_error _).
  { intros [= <- <-]. eexists. split; [reflexivity|].
    unfold closed, close, rollback. cbn. now rewrite Ht. }
  destruct (largest_rowid t =? max_rowid).
  { intros [= <- <-]. eexists. split; [reflexivity|].
    unfold closed, close, rollback. cbn. now rewrite Ht. }
  destruct (commit_fault env); [|discriminate].
  intros [= <- <-]. eexists. split; [reflexivity|].
  unfold closed, close, rollback. cbn. now rewrite Ht.
Qed.

(** The row of an accepted submission holds the fields as they were
    submitted. *)
Lemma add_entry_row_of_accepted :
  fst res = Returned msg_added ->
  exists t,
    table_of w = Some t /\
    table_of (snd res)
    = Some {| rows := rows t ++
                [ {| id := largest_rowid t + 1;
                     problem := entry_problem entry;
                     name := entry_name entry;
                     email := entry_email entry;
                     created_at := CURRENT_TIMESTAMP env;
                     uuid := uuid4 env |} ];
              sqlite_sequence := largest_rowid t + 1 |}.
Proof.
  subst res p. intro H.
  destruct (add_entry_paths upper env entry w) as [| | | | |r t];
    cbn [fst] in H; try discriminate.
  exists t. now split.
Qed.

End Submission.

Lemma car_ready (answer : exc Content) (now : Z) :
  store_ready (service answer "7d0c" now) car started.
Proof.
  repeat split. exists {| rows := []; sqlite_sequence := 0 |}.
  split; [reflexivity|]. vm_compute. discriminate.
Qed.

Lemma add_entry_stores_iff_yes_witness :
  stores_a_row started
    (snd (add_entry ascii_upper (service (says "yes") "7d0c" 100) car started)) /\
  fst (add_entry ascii_upper (service (says "Yes.") "7d0c" 100) car started)
  = Returned msg_flagged /\
  fst (add_entry ascii_upper (service (Return Chunks) "7d0c" 100) car started)
  = HTTPException 500 (database_error (attribute_error Chunks)) /\
  table_of (snd (add_entry ascii_upper (service (Raise (lit "timed out")) "7d0c" 100)
                   car started))
  = table_of started.
Proof.
  split; [|split; [|split]].
  - apply (proj1 (add_entry_stores_iff_yes ascii_upper
                    (service (says "yes") "7d0c" 100) car started)
             eq_refl (car_ready _ _) (lit "yes") eq_refl).
    reflexivity.
  - apply (proj1 (proj2 (add_entry_stores_iff_yes ascii_upper
                           (service (says "Yes.") "7d0c" 100) car started))
             eq_refl (lit "Yes.") eq_refl).
    vm_compute. discriminate.
  - apply (proj1 (proj2 (proj2 (add_entry_stores_iff_yes ascii_upper
                                  (service (Return Chunks) "7d0c" 100) car started)))
             eq_refl Chunks eq_refl).
    intros r H. discriminate H.
  - apply (proj2 (proj2 (proj2 (add_entry_stores_iff_yes ascii_upper
                                  (service (Raise (lit "timed out")) "7d0c" 100)
                                  car started)))).
    intros r H. discriminate H.
Defined.

(** C1, as stated, fails on an answer that is no text: with the content
    None the comparison is not reached, [.upper()] raises inside the [try]
    and the submission is answered 500 instead of the rejection. *)
Lemma add_entry_answer_without_text_is_500 :
  fst (add_entry ascii_upper (service (Return NoneContent) "7d0c" 100) car started)
  = HTTPException 500
      (lit "Database error: 'NoneType' object has no attribute 'upper'") /\
  fst (add_entry ascii_upper (service (Return NoneContent) "7d0c" 100) car started)
  <> Returned msg_flagged.
Proof. split; [reflexivity|discriminate]. Qed.

Lemma add_entry_reject_is_normal_outcome_witness :
  fst (add_entry ascii_upper (service (says "NO") "7d0c" 100) car started)
  = Returned {| status := lit "error";
                message := lit "Entry not added because it was flagged as potentially offensive" |} /\
  table_of (snd (add_entry ascii_upper (service (says "NO") "7d0c" 100) car started))
  = table_of started.
Proof.
  assert (Hn : ascii_upper (lit "NO") <> YES) by (vm_compute; discriminate).
  pose proof (add_entry_reject_is_normal_outcome ascii_upper
                (service (says "NO") "7d0c" 100) car started (lit "NO")
                eq_refl eq_refl Hn) as (H1 & H2 & _).
  split; assumption.
Defined.

Lemma add_entry_blank_is_invalid_witness :
  add_entry ascii_upper (service (says "YES") "7d0c" 100)
    (parse_entry (lit "   ") None None) started
  = (HTTPException 400 (lit "Problem description cannot be empty"), started).
Proof.
  exact (proj1 (add_entry_blank_is_invalid ascii_upper
                  (service (says "YES") "7d0c" 100)
                  (parse_entry (lit "   ") None None) started eq_refl)).
Defined.

Lemma add_entry_gate_failure_is_500_witness :
  fst (add_entry ascii_upper (service (Raise (lit "timed out")) "7d0c" 100)
         car started)
  = HTTPException 500 (lit "Database error: " ++ lit "timed out")%list /\
  table_of (snd (add_entry ascii_upper
                   (service (Raise (lit "timed out")) "7d0c" 100) car started))
  = table_of started.
Proof.
  pose proof (add_entry_gate_failure_is_500 ascii_upper
                (service (Raise (lit "timed out")) "7d0c" 100) car started
                (lit "timed out") eq_refl eq_refl) as (H1 & _ & H2 & _).
  split; assumption.
Defined.

Lemma add_entry_insert_failure_rolls_back_witness :
  fst (add_entry ascii_upper commit_fails car started)
  = HTTPException 500 (lit "Database error: " ++ lit "disk I/O error")%list /\
  table_of (snd (add_entry ascii_upper commit_fails car started))
  = table_of started.
Proof.
  assert (Hf : insert_fails commit_fails car started (lit "disk I/O error"))
    by (eexists; reflexivity).
  pose proof (add_entry_insert_failure_rolls_back ascii_upper commit_fails car
                started (lit "YES") (lit "disk I/O error")
                eq_refl eq_refl eq_refl Hf) as (H1 & H2 & _).
  split; assumption.
Defined.

(** C10. The text stored for an accepted submission is the submitted string
    itself: the row is built from [entry.problem], the trimmed form serves
    the emptiness test only, so a stored text can keep its leading and
    trailing whitespace. *)
Theorem add_entry_stores_raw_text :
  (forall upper env entry w,
      fst (add_entry upper env entry w) = Returned msg_added ->
      exists t r,
        table_of w = Some t /\
        table_of (snd (add_entry upper env entry w))
        = Some {| rows := rows t ++ [r]; sqlite_sequence := id r |} /\
        problem r = entry_problem entry) /\
  (exists t,
      fst (add_entry ascii_upper (service (says "YES") "7d0c" 100) padded started)
      = Returned msg_added /\
      table_of (snd (add_entry ascii_upper (service (says "YES") "7d0c" 100)
                       padded started)) = Some t /\
      List.map problem (rows t) = [lit "  the lift is stuck  "] /\
      strip (lit "  the lift is stuck  ") = lit "the lift is stuck").
Proof.
  split.
  - intros upper env entry w H.
    destruct (add_entry_row_of_accepted upper env entry w H) as (t & Ht & Ht').
    exists t. eexists. split; [exact Ht|]. split; [exact Ht'|reflexivity].
  - eexists. repeat split.
Qed.

Lemma add_entry_stores_raw_text_witness :
  exists t r,
    table_of started = Some t /\
    table_of (snd (add_entry ascii_upper (service (says "YES") "7d0c" 100)
                     padded started))
    = Some {| rows := rows t ++ [r]; sqlite_sequence := id r |} /\
    problem r = lit "  the lift is stuck  ".
Proof.
  exact (proj1 add_entry_stores_raw_text ascii_upper
           (service (says "YES") "7d0c" 100) padded started eq_refl).
Defined.

(** The scenarios of the specification, and two answers that are close to
    YES without being it. *)
Example accepted_submission_is_listed :
  fst (get_all_entries (service (says "YES") "-" 101)
         (snd (add_entry ascii_upper (service (says "YES") "7d0c" 100) car started)))
  = Returned [ {| view_id := 1; view_problem := lit "My car won't start";
                  view_name := lit "Alice"; view_created_at := 100 |} ].
Proof. reflexivity. Qed.

Example empty_submission_is_refused :
  add_entry ascii_upper (service (says "YES") "7d0c" 100)
    (parse_entry [] None None) started
  = (HTTPException 400 msg_empty, started).
Proof. reflexivity. Qed.

Example lower_case_yes_is_accepted :
  fst (add_entry ascii_upper (service (says "yes") "7d0c" 100) car started)
  = Returned msg_added.
Proof. reflexivity. Qed.

Example padded_yes_is_flagged :
  fst (add_entry ascii_upper (service (says " YES") "7d0c" 100) car started)
  = Returned msg_flagged.
Proof. reflexivity. Qed.

Example missing_table_is_500 :
  add_entry ascii_upper (service (says "YES") "7d0c" 100) car no_file
  = (HTTPException 500 (database_error no_such_table),
     {| disk := Some None; gate_calls := [lit "My car won't start"] |}).
Proof. reflexivity. Qed.

Example surrogate_text_is_500 :
  add_entry ascii_upper (service (says "YES") "7d0c" 100)
    (parse_entry [104%N; 57343%N] None None) started
  = (HTTPException 500
       (database_error
          (lit "'utf-8' codec can't encode character '\udfff' in position 1: surrogates not allowed")),
     {| disk := Some (Some empty_table); gate_calls := [[104%N; 57343%N]] |}).
Proof. reflexivity. Qed.

(** ** The start-up of the store *)

Lemma init_db_idempotent (w : World) : init_db (init_db w) = init_db w.
Proof. now destruct w as [[db|] sent]. Qed.

(** C9, as the code has it. [init_db] looks at the file, not at the table:
    when the file is absent it creates the file with an empty table; when
    the file exists it does nothing, so a store that was initialised is
    left unchanged and calling it again changes nothing. *)
Theorem init_db_creates_when_file_absent (w : World) :
  (disk w = None ->
   init_db w = {| disk := Some (Some empty_table); gate_calls := gate_calls w |}) /\
  (forall db, disk w = Some db -> init_db w = w) /\
  (forall t, table_of w = Some t -> init_db w = w) /\
  init_db (init_db w) = init_db w.
Proof.
  split; [|split; [|split]].
  - intro H. unfold init_db, committed, connect, execute_create, table_of. now rewrite H.
  - intros db H. unfold init_db. now rewrite H.
  - intros t H. unfold init_db, table_of in *. now destruct (disk w).
  - apply init_db_idempotent.
Qed.

Lemma init_db_creates_when_file_absent_witness :
  init_db no_file = {| disk := Some (Some empty_table); gate_calls := [] |} /\
  init_db started = started.
Proof.
  split.
  - exact (proj1 (init_db_creates_when_file_absent no_file) eq_refl).
  - exact (proj1 (proj2 (proj2 (init_db_creates_when_file_absent started)))
             empty_table eq_refl).
Defined.

(** C9, as stated, fails on a file that holds no table. Such a file is what
    a request leaves behind when [problems.db] is missing while the service
    runs: the connection creates it, the statement fails. At the next start
    the table is absent and [init_db] does not create it. *)
Lemma init_db_skips_file_without_table :
  snd (get_all_entries (service (says "YES") "7d0c" 100) no_file) = empty_file /\
  table_of empty_file = None /\
  init_db empty_file = empty_file /\
  table_of (init_db empty_file) = None.
Proof. repeat split. Qed.

(** ** Deletion *)



Lemma keep_all_when_no_match (u : str) (l : list Row) :
  (forall r, In r l -> uuid r <> u) ->
  filter (fun r => negb (str_eqb (uuid r) u)) l = l.
Proof.
  induction l as [|r l IH]; [reflexivity|]. cbn. intro H.
  assert (E : str_eqb (uuid r) u = false) by (apply str_eqb_neq, H; now left).
  rewrite E. cbn. f_equal. apply IH. intros r' Hr'. apply H. now right.
Qed.




(** ** Listing *)

Lemma insert_desc_perm (r : Row) (l : list Row) :
  Permutation (insert_desc r l) (r :: l).
Proof.
  induction l as [|x l IH]; cbn; [reflexivity|].
  destruct (created_at r <? created_at x); [|reflexivity].
  rewrite IH. apply perm_swap.
Qed.

Lemma order_by_perm (l : list Row) :
  Permutation (order_by_created_at_desc l) l.
Proof.
  induction l as [|x l IH]; cbn; [reflexivity|].
  rewrite insert_desc_perm. now constructor.
Qed.

Lemma insert_desc_sorted (r : Row) (l : list Row) :
  StronglySorted not_older l -> StronglySorted not_older (insert_desc r l).
Proof.
  induction 1 as [|x l Hs IH Hx]; cbn; [repeat constructor|].
  destruct (created_at r <? created_at x) eqn:E.
  - apply Z.ltb_lt in E. constructor; [exact IH|].
    apply Forall_forall. intros y Hy.
    apply (Permutation_in _ (insert_desc_perm r l)) in Hy.
    destruct Hy as [<-|Hy]; [unfold not_older; lia|].
    now apply (proj1 (Forall_forall _ _) Hx).
  - apply Z.ltb_ge in E. constructor; [now constructor|].
    constructor; [unfold not_older; lia|].
    apply Forall_forall. intros y Hy.
    pose proof (proj1 (Forall_forall _ _) Hx y Hy) as H.
    unfold not_older in *. lia.
Qed.

Lemma order_by_sorted (l : list Row) :
  StronglySorted not_older (order_by_created_at_desc l).
Proof.
  induction l as [|x l IH]; cbn; [constructor|now apply insert_desc_sorted].
Qed.

Lemma before_insert_desc (a b x : Row) (l : list Row) :
  before a b l -> before a b (insert_desc x l).
Proof.
  induction 1 as [l Hb|y l Hab IH]; cbn.
  - destruct (created_at x <? created_at a).
    + apply before_here.
      apply (Permutation_in _ (Permutation_sym (insert_desc_perm x l))).
      now right.
    + now apply before_later, before_here.
  - destruct (created_at x <? created_at y).
    + now apply before_later.
    + now apply before_later, before_later.
Qed.

Lemma insert_desc_ahead (a b : Row) (l : list Row) :
  In b l -> created_at b <= created_at a -> before a b (insert_desc a l).
Proof.
  induction l as [|y l IH]; cbn; [intros []|]. intros Hb Hle.
  destruct (created_at a <? created_at y) eqn:E.
  - apply Z.ltb_lt in E. apply before_later. apply IH; [|exact Hle].
    destruct Hb as [->|Hb]; [lia|exact Hb].
  - now apply before_here.
Qed.

(** Rows with equal keys, and rows already in descending order, keep their
    scan order. *)
Lemma order_by_stable (a b : Row) (l : list Row) :
  before a b l -> created_at b <= created_at a ->
  before a b (order_by_created_at_desc l).
Proof.
  induction 1 as [l Hb|y l Hab IH]; cbn; intro Hle.
  - apply insert_desc_ahead; [|exact Hle].
    now apply (Permutation_in _ (Permutation_sym (order_by_perm l))).
  - now apply before_insert_desc, IH.
Qed.

Lemma sorted_newer_first (a b : Row) (l : list Row) :
  StronglySorted not_older l -> In a l -> In b l ->
  created_at b > created_at a -> before b a l.
Proof.
  induction 1 as [|y l Hs IH Hy]; [intros []|]. intros Ha Hb Hgt.
  pose proof (proj1 (Forall_forall _ _) Hy) as Hall. unfold not_older in Hall.
  destruct Hb as [->|Hb].
  - apply before_here. destruct Ha as [->|Ha]; [lia|exact Ha].
  - apply before_later. apply IH; try assumption.
    destruct Ha as [->|Ha]; [|exact Ha].
    specialize (Hall b Hb). lia.
Qed.

Lemma before_in {A : Type} (a b : A) (l : list A) :
  before a b l -> In a l /\ In b l.
Proof.
  induction 1 as [l Hb|y l Hab [Ha Hb]]; cbn; auto.
Qed.

(** C6, as the code has it. On a store that holds the table,
    [get_all_entries] returns the fields id, problem, name and created_at
    of every stored row, once each, in descending order of created_at, and
    not strictly so: a row inserted after another comes ahead of it when
    its created_at is later, and stays behind it when both carry the same
    created_at (or an earlier one). *)
Theorem get_all_entries_newest_first (env : Env) (w : World) (t : Table) :
  table_of w = Some t ->
  execute_fault env = None ->
  let listed := order_by_created_at_desc (rows t) in
  get_all_entries env w
  = (Returned (List.map view listed),
     {| disk := Some (Some t); gate_calls := gate_calls w |}) /\
  Permutation listed (rows t) /\
  StronglySorted (fun a b => created_at a >= created_at b) listed /\
  (forall a b, before a b (rows t) -> created_at b > created_at a ->
               before b a listed) /\
  (forall a b, before a b (rows t) -> created_at b <= created_at a ->
               before a b listed).
Proof.
  intros Ht Hx listed. subst listed.
  split; [|split; [|split; [|split]]].
  - unfold get_all_entries, bind, execute_select_ordered, connect, ret, close.
    cbn [conn file calls]. now rewrite Hx, Ht.
  - apply order_by_perm.
  - apply order_by_sorted.
  - intros a b Hab Hgt. destruct (before_in a b _ Hab) as [Ha Hb].
    apply sorted_newer_first; try assumption.
    + apply order_by_sorted.
    + now apply (Permutation_in _ (Permutation_sym (order_by_perm (rows t)))).
    + now apply (Permutation_in _ (Permutation_sym (order_by_perm (rows t)))).
  - intros a b Hab Hle. now apply order_by_stable.
Qed.

Lemma get_all_entries_newest_first_witness :
  fst (get_all_entries (service (says "YES") "-" 101) after_second)
  = Returned (List.map view
                (order_by_created_at_desc
                   [ {| id := 1; problem := lit "A"; name := lit "Anonymous";
                        email := []; created_at := 100; uuid := lit "uuid-A" |};
                     {| id := 2; problem := lit "B"; name := lit "Anonymous";
                        email := []; created_at := 100; uuid := lit "uuid-B" |} ])).
Proof.
  exact (f_equal fst
           (proj1 (get_all_entries_newest_first
                     (service (says "YES") "-" 101) after_second
                     {| rows :=
                          [ {| id := 1; problem := lit "A"; name := lit "Anonymous";
                               email := []; created_at := 100; uuid := lit "uuid-A" |};
                            {| id := 2; problem := lit "B"; name := lit "Anonymous";
                               email := []; created_at := 100; uuid := lit "uuid-B" |} ];
                        sqlite_sequence := 2 |}
                     eq_refl eq_refl))).
Defined.

(** C6, as stated, fails when two entries are stored within one second:
    both carry the same created_at, the listing is not strictly descending,
    and the entry inserted second is listed second. *)
Lemma get_all_entries_same_second_lists_older_first :
  fst (get_all_entries (service (says "YES") "-" 101) after_second)
  = Returned [first_view; second_view] /\
  view_id first_view < view_id second_view /\
  ~ view_created_at first_view > view_created_at second_view /\
  ~ before second_view first_view [first_view; second_view].
Proof.
  split; [reflexivity|]. split; [reflexivity|]. split; [cbn; lia|].
  intro H. inversion H as [l Hin|x l Hb]; subst.
  inversion Hb as [l Hin|x l Hb']; subst.
  - destruct Hin.
  - inversion Hb'.
Qed.

(** ** Runs of the service *)

Lemma stored_uuids_same (w w' : World) :
  table_of w' = table_of w -> stored_uuids w' = stored_uuids w.
Proof. unfold stored_uuids. now intros ->. Qed.

Lemma NoDup_map_filter {A B : Type} (f : A -> B) (keep : A -> bool) (l : list A) :
  NoDup (List.map f l) -> NoDup (List.map f (filter keep l)).
Proof.
  induction l as [|x l IH]; cbn; [trivial|]. intro H.
  apply NoDup_cons_iff in H as [Hx Hl].
  destruct (keep x); cbn; [|now apply IH].
  constructor; [|now apply IH].
  intro Hin. apply Hx. apply in_map_iff in Hin as (y & Hy & Hin).
  apply filter_In in Hin as [Hin _]. apply in_map_iff. now exists y.
Qed.

Lemma incl_map_filter {A B : Type} (f : A -> B) (keep : A -> bool) (l : list A) :
  incl (List.map f (filter keep l)) (List.map f l).
Proof.
  intros y Hin. apply in_map_iff in Hin as (x & Hx & Hin).
  apply filter_In in Hin as [Hin _]. apply in_map_iff. now exists x.
Qed.

(** A deletion leaves the table as it was or keeps a part of its rows. *)
Lemma delete_entry_table (env : Env) (u : str) (w : World) :
  table_of (snd (delete_entry env u w)) = table_of w \/
  exists t, table_of w = Some t /\
            table_of (snd (delete_entry env u w))
            = Some {| rows := filter (fun r => negb (str_eqb (uuid r) u)) (rows t);
                      sqlite_sequence := sqlite_sequence t |}.
Proof.
  unfold delete_entry, bind, execute_delete, commit, connect, ret, close.
  cbn [conn file calls].
  destruct (execute_fault env); [now left|].
  destruct (table_of w) as [t|] eqn:Ht; [|now left].
  destruct (commit_fault env); [now left|].
  right. now exists t.
Qed.

Lemma get_all_entries_table (env : Env) (w : World) :
  table_of (snd (get_all_entries env w)) = table_of w.
Proof.
  unfold get_all_entries, bind, execute_select_ordered, connect, ret, close.
  cbn [conn file calls].
  destruct (execute_fault env); [reflexivity|].
  now destruct (table_of w).
Qed.

Lemma get_all_data_table (env : Env) (w : World) :
  table_of (snd (get_all_data env w)) = table_of w.
Proof.
  unfold get_all_data, execute_select_all, connect, close.
  cbn [conn file calls].
  destruct (execute_fault env); [reflexivity|].
  now destruct (table_of w).
Qed.

(** One request: what it stores is what it adds to the uuids of the
    table; nothing else enters the table. *)
Lemma serve_uuids (upper : str -> str) (env : Env) (rq : Request) (w : World) :
  (stored_by upper env rq w = [] /\
   incl (stored_uuids (serve upper env rq w)) (stored_uuids w) /\
   (NoDup (stored_uuids w) -> NoDup (stored_uuids (serve upper env rq w)))) \/
  (exists entry, rq = AddEntry entry /\
     stored_by upper env rq w = [uuid4 env] /\
     stored_uuids (serve upper env rq w) = (stored_uuids w ++ [uuid4 env])%list).
Proof.
  destruct rq as [entry| |u|]; cbn [serve stored_by].
  - destruct (add_entry_paths upper env entry w) as [| | | | |r t Hv Hc Hy Hr Ht];
      cbn [fst snd];
      try (left; split; [reflexivity|];
           rewrite ?(stored_uuids_same w (closed w _)) by apply table_of_closed;
           split; [apply incl_refl|trivial]).
    right. exists entry. split; [reflexivity|]. split; [reflexivity|].
    unfold stored_uuids at 1. unfold table_of at 1. cbn [disk].
    unfold stored_uuids. rewrite Ht.
    unfold table_with. cbn [rows]. now rewrite map_app.
  - left. rewrite (stored_uuids_same _ _ (get_all_entries_table env w)).
    split; [reflexivity|]. split; [apply incl_refl|trivial].
  - left. split; [reflexivity|].
    destruct (delete_entry_table env u w) as [E|(t & Ht & E)].
    + rewrite (stored_uuids_same _ _ E). split; [apply incl_refl|trivial].
    + unfold stored_uuids. rewrite E, Ht. cbn [rows].
      split; [apply incl_map_filter|apply NoDup_map_filter].
  - left. rewrite (stored_uuids_same _ _ (get_all_data_table env w)).
    split; [reflexivity|]. split; [apply incl_refl|trivial].
Qed.

Lemma drawn_tail (hist : list str) (env : Env) (rq : Request)
  (rest : list (Env * Request)) :
  NoDup (hist ++ drawn ((env, rq) :: rest)) -> NoDup (hist ++ drawn rest).
Proof.
  destruct rq; cbn [drawn]; trivial. apply NoDup_remove_1.
Qed.

(** The invariant of a run: the uuids of the table are distinct and are
    among those inserted so far, as long as the draws are fresh. *)
Lemma run_uuids (upper : str -> str) (reqs : list (Env * Request)) :
  forall (w : World) (hist : list str),
    incl (stored_uuids w) hist ->
    NoDup (stored_uuids w) ->
    NoDup (hist ++ drawn reqs) ->
    NoDup (hist ++ inserted upper reqs w) /\
    NoDup (stored_uuids (run upper reqs w)) /\
    incl (stored_uuids (run upper reqs w)) (hist ++ inserted upper reqs w).
Proof.
  induction reqs as [|[env rq] rest IH]; intros w hist Hin Hnd Hdr.
  - cbn. rewrite app_nil_r in *. auto.
  - cbn [run inserted].
    destruct (serve_uuids upper env rq w)
      as [(Hs & Hsub & Hkeep)|(entry & -> & Hs & Hw')]; rewrite Hs.
    + cbn [app]. apply IH.
      * intros u Hu. apply Hin, Hsub, Hu.
      * now apply Hkeep.
      * now apply drawn_tail in Hdr.
    + cbn [drawn] in Hdr.
      assert (Hfresh : ~ In (uuid4 env) hist).
      { intro Hu. apply (NoDup_remove_2 _ _ _ Hdr). apply in_or_app. now left. }
      replace (hist ++ [uuid4 env] ++ inserted upper rest (serve upper env (AddEntry entry) w))%list
        with ((hist ++ [uuid4 env]) ++ inserted upper rest (serve upper env (AddEntry entry) w))%list
        by now rewrite <- app_assoc.
      apply IH.
      * rewrite Hw'. intros u Hu. apply in_app_or in Hu as [Hu|Hu].
        -- apply in_or_app. left. now apply Hin.
        -- apply in_or_app. now right.
      * rewrite Hw'. apply NoDup_app; [exact Hnd|repeat constructor; intros []|].
        intros u Hu [<-|[]]. apply Hfresh, Hin, Hu.
      * now rewrite <- app_assoc.
Qed.




(** ** Validation and the outcomes of a submission *)

Lemma lstrip_nil (s : str) : lstrip s = [] <-> blank s = true.
Proof.
  unfold blank. induction s as [|c s IH]; cbn; [tauto|].
  destruct (is_space c); cbn; [exact IH|]. split; discriminate.
Qed.

Lemma lstrip_not_blank (s : str) : blank s = false -> blank (lstrip s) = false.
Proof.
  unfold blank. induction s as [|c s IH]; cbn; [discriminate|].
  destruct (is_space c) eqn:E; cbn; [exact IH|]. now rewrite E.
Qed.

Lemma blank_rev (s : str) : blank (rev s) = blank s.
Proof.
  unfold blank. destruct (forallb is_space s) eqn:E.
  - apply forallb_forall. intros c Hc. apply in_rev in Hc.
    now apply (proj1 (forallb_forall _ _) E).
  - destruct (forallb is_space (rev s)) eqn:E'; [|reflexivity].
    rewrite <- E. symmetry. apply forallb_forall. intros c Hc.
    apply in_rev in Hc.
    now apply (proj1 (forallb_forall _ _) E').
Qed.

Lemma strip_nil (s : str) : strip s = [] <-> blank s = true.
Proof.
  unfold strip, rstrip. split.
  - intro H. destruct (blank s) eqn:E; [reflexivity|].
    apply lstrip_not_blank in E. rewrite <- blank_rev in E.
    apply (f_equal (@rev N)) in H. rewrite rev_involutive in H. cbn in H.
    apply lstrip_nil in H. congruence.
  - intro H. apply lstrip_nil in H. now rewrite H.
Qed.

Lemma truthy_strip (s : str) : truthy (strip s) = negb (blank s).
Proof.
  destruct (blank s) eqn:E.
  - apply strip_nil in E. now rewrite E.
  - destruct (strip s) eqn:Es; [|reflexivity].
    apply strip_nil in Es. congruence.
Qed.

(** [add_entry] answers 400 exactly for the texts made of whitespace only,
    whatever the environment and the store; its only other HTTP error is
    500, and the only bodies it returns are the success and the flagged
    message. *)
Theorem add_entry_400_iff_blank (upper : str -> str) (env : Env)
  (entry : ProblemEntry) (w : World) :
  (fst (add_entry upper env entry w) = HTTPException 400 msg_empty <->
   blank (entry_problem entry) = true) /\
  (forall code detail,
      fst (add_entry upper env entry w) = HTTPException code detail ->
      code = 400 /\ blank (entry_problem entry) = true \/
      code = 500 /\ blank (entry_problem entry) = false) /\
  (forall body,
      fst (add_entry upper env entry w) = Returned body ->
      blank (entry_problem entry) = false /\
      (body = msg_added \/ body = msg_flagged)).
Proof.
  assert (Hb : blank (entry_problem entry)
               = negb (truthy (strip (entry_problem entry))))
    by (rewrite truthy_strip; now destruct (blank (entry_problem entry))).
  destruct (add_entry_paths upper env entry w)
    as [Hv|e Hv Hc|c Hv Hc Hn|r Hv Hc Hy|r e Hv Hc Hy Hf|r t Hv Hc Hy Hr Ht];
    rewrite Hv in Hb; cbn [negb] in Hb; rewrite Hb; cbn [fst];
    (split; [split; intro H; (reflexivity || discriminate H)|]);
    (split; [intros code detail H;
             (discriminate H || (injection H as <- _; auto))
            |intros body H;
             (discriminate H || (injection H as <-; auto))]).
Qed.

(** The success message and the new row go together: [add_entry] answers
    "Entry added successfully" exactly when it appended a row to the table,
    and with every other answer the table is as it was. *)
Theorem add_entry_success_iff_stored (upper : str -> str) (env : Env)
  (entry : ProblemEntry) (w : World) :
  (fst (add_entry upper env entry w) = Returned msg_added <->
   stores_a_row w (snd (add_entry upper env entry w))) /\
  (fst (add_entry upper env entry w) <> Returned msg_added ->
   table_of (snd (add_entry upper env entry w)) = table_of w).
Proof.
  destruct (add_entry_paths upper env entry w)
    as [Hv|e Hv Hc|c Hv Hc Hn|r Hv Hc Hy|r e Hv Hc Hy Hf|r t Hv Hc Hy Hr Ht];
    cbn [fst snd].
  6: { split; [|intro H; now destruct H]. split; [intros _|reflexivity].
       exists t, (table_with t (new_row env entry t)), (new_row env entry t).
       now repeat split. }
  all: split; [|intros _; try reflexivity; apply table_of_closed].
  all: split; [intro H; discriminate H|intro H; exfalso; revert H].
  all: apply not_stored_when_unchanged; try reflexivity; apply table_of_closed.
Qed.

(** ** The table over the life of the service *)

Lemma init_db_keeps_file (w : World) (db : Database) :
  disk w = Some db -> init_db w = w.
Proof. unfold init_db. now intros ->. Qed.

Lemma init_db_keeps_table (w : World) (t : Table) :
  table_of w = Some t -> init_db w = w.
Proof.
  unfold table_of. destruct (disk w) as [db|] eqn:E; [|discriminate].
  intros _. now apply init_db_keeps_file with db.
Qed.

Lemma serve_step (upper : str -> str) (env : Env) (rq : Request) (w : World)
  (t : Table) :
  table_of w = Some t ->
  exists t', table_of (serve upper env rq w) = Some t' /\ table_step t t'.
Proof.
  intro Ht. destruct rq as [entry| |u|]; cbn [serve].
  - destruct (add_entry_paths upper env entry w)
      as [Hv|e Hv Hc|c Hv Hc Hn|r Hv Hc Hy|r e Hv Hc Hy Hf|r t0 Hv Hc Hy Hr Ht0];
      cbn [snd]; rewrite ?table_of_closed;
      try (exists t; split; [exact Ht|constructor]).
    rewrite Ht in Ht0. injection Ht0 as <-.
    eexists. split; [reflexivity|now constructor].
  - rewrite get_all_entries_table. exists t. split; [exact Ht|constructor].
  - destruct (delete_entry_table env u w) as [E|(t0 & Ht0 & E)]; rewrite E.
    + exists t. split; [exact Ht|constructor].
    + rewrite Ht in Ht0. injection Ht0 as <-.
      exists (without u t). split; [reflexivity|constructor].
  - rewrite get_all_data_table. exists t. split; [exact Ht|constructor].
Qed.

Lemma steps_first (t t1 t2 : Table) :
  table_step t t1 -> table_steps t1 t2 -> table_steps t t2.
Proof.
  intros H1 H2. induction H2 as [|ta tb Hs IH Hl].
  - now apply steps_more with t; [constructor|].
  - now apply steps_more with ta.
Qed.

Lemma life_steps (upper : str -> str) (evs : list Event) :
  forall (w : World) (t : Table),
    table_of w = Some t ->
    exists t', table_of (life upper evs w) = Some t' /\ table_steps t t'.
Proof.
  induction evs as [|[env rq|] rest IH]; intros w t Ht; cbn [life].
  - exists t. split; [exact Ht|constructor].
  - destruct (serve_step upper env rq w t Ht) as (t1 & Ht1 & Hs).
    destruct (IH _ _ Ht1) as (t2 & Ht2 & Hss).
    exists t2. split; [exact Ht2|now apply steps_first with t1].
  - rewrite (init_db_keeps_table w t Ht). now apply IH.
Qed.

Lemma largest_rowid_ge_sequence (t : Table) :
  sqlite_sequence t <= largest_rowid t.
Proof.
  unfold largest_rowid. induction (rows t) as [|r l IH]; cbn; lia.
Qed.

Lemma largest_rowid_ge_id (t : Table) (r : Row) :
  In r (rows t) -> id r <= largest_rowid t.
Proof.
  unfold largest_rowid. induction (rows t) as [|x l IH]; cbn; [intros []|].
  intros [->|H]; [lia|]. specialize (IH H). lia.
Qed.

Lemma sorted_snoc (l : list Z) (x : Z) :
  StronglySorted Z.lt l -> Forall (fun y => y < x) l ->
  StronglySorted Z.lt (l ++ [x]).
Proof.
  induction 1 as [|y l Hs IH Hy]; cbn; intro Hx.
  - repeat constructor.
  - apply Forall_cons_iff in Hx as [Hyx Hx]. constructor; [now apply IH|].
    apply Forall_app. split; [exact Hy|now repeat constructor].
Qed.

Lemma sorted_ids_filter (keep : Row -> bool) (l : list Row) :
  StronglySorted Z.lt (List.map id l) ->
  StronglySorted Z.lt (List.map id (filter keep l)).
Proof.
  induction l as [|r l IH]; cbn; [trivial|]. intro H.
  apply StronglySorted_inv in H as [Hs Hr].
  destruct (keep r); cbn; [|now apply IH].
  constructor; [now apply IH|].
  apply Forall_forall. intros y Hy. apply in_map_iff in Hy as (x & <- & Hx).
  apply filter_In in Hx as [Hx _].
  apply (proj1 (Forall_forall _ _) Hr). now apply in_map.
Qed.

Lemma step_grown (t t1 t2 : Table) :
  grown t t1 -> table_step t1 t2 -> grown t t2.
Proof.
  unfold grown, ids_ascending. intros ([Hs Hb] & Hq & Hn) [|env entry Hv|u].
  - now repeat split.
  - pose proof (largest_rowid_ge_sequence t1) as Hl.
    unfold grown, ids_ascending, table_with, new_row. cbn [rows sqlite_sequence id].
    repeat split.
    + rewrite map_app. cbn [List.map id]. apply sorted_snoc; [exact Hs|].
      apply Forall_forall. intros y Hy. apply in_map_iff in Hy as (x & <- & Hx).
      pose proof (largest_rowid_ge_id t1 x Hx). lia.
    + apply Forall_app. split.
      * apply Forall_forall. intros x Hx.
        pose proof (largest_rowid_ge_id t1 x Hx). lia.
      * constructor; [|constructor]. cbn [id]. lia.
    + lia.
    + apply Forall_app. split; [exact Hn|].
      constructor; [|constructor]. right. cbn [id]. lia.
  - unfold grown, ids_ascending, without. cbn [rows sqlite_sequence].
    repeat split.
    + now apply sorted_ids_filter.
    + apply Forall_forall. intros x Hx. apply filter_In in Hx as [Hx _].
      now apply (proj1 (Forall_forall _ _) Hb).
    + exact Hq.
    + apply Forall_forall. intros x Hx. apply filter_In in Hx as [Hx _].
      now apply (proj1 (Forall_forall _ _) Hn).
Qed.

Lemma steps_grown (t t' : Table) :
  ids_ascending t -> table_steps t t' -> grown t t'.
Proof.
  intros Ha Hs. induction Hs as [|t1 t2 Hs IH Hl].
  - split; [exact Ha|]. split; [lia|].
    apply Forall_forall. intros r Hr. now left.
  - now apply step_grown with t1.
Qed.

Lemma steps_texts_valid (t t' : Table) :
  texts_valid t -> table_steps t t' -> texts_valid t'.
Proof.
  intros Hv Hs. induction Hs as [|t1 t2 Hs IH [|env entry He|u]]; try assumption.
  - unfold texts_valid, table_with. cbn [rows].
    apply Forall_app. split; [exact IH|]. now repeat constructor.
  - unfold texts_valid, without. cbn [rows].
    apply Forall_forall. intros x Hx. apply filter_In in Hx as [Hx _].
    now apply (proj1 (Forall_forall _ _) IH).
Qed.

(** Once the table exists it stays, through requests and restarts, and its
    ids keep the order of insertion: they ascend along the table and stay
    below the AUTOINCREMENT counter, which never goes down. A row that was
    not there at the beginning has an id above the counter of the
    beginning, so the id of a deleted entry is not given out again. *)
Theorem life_keeps_ids_ascending (upper : str -> str) (evs : list Event)
  (w : World) (t : Table) :
  table_of w = Some t ->
  ids_ascending t ->
  exists t',
    table_of (life upper evs w) = Some t' /\
    ids_ascending t' /\
    sqlite_sequence t <= sqlite_sequence t' /\
    Forall (fun r => In r (rows t) \/ sqlite_sequence t < id r) (rows t').
Proof.
  intros Ht Ha. destruct (life_steps upper evs w t Ht) as (t' & Ht' & Hs).
  exists t'. split; [exact Ht'|]. now apply steps_grown.
Qed.

(** No stored text is blank: if every text of the table passes the
    validation of [add_entry], so does every text of the table after any
    requests and restarts. *)
Theorem life_keeps_texts_valid (upper : str -> str) (evs : list Event)
  (w : World) (t : Table) :
  table_of w = Some t ->
  Forall (fun r => blank (problem r) = false) (rows t) ->
  exists t',
    table_of (life upper evs w) = Some t' /\
    Forall (fun r => blank (problem r) = false) (rows t').
Proof.
  intros Ht Hv. destruct (life_steps upper evs w t Ht) as (t' & Ht' & Hs).
  exists t'. split; [exact Ht'|].
  assert (Hv' : texts_valid t).
  { unfold texts_valid. apply Forall_forall. intros r Hr.
    rewrite truthy_strip. now rewrite (proj1 (Forall_forall _ _) Hv r Hr). }
  pose proof (steps_texts_valid t t' Hv' Hs) as H.
  apply Forall_forall. intros r Hr.
  pose proof (proj1 (Forall_forall _ _) H r Hr) as Hr'. cbn in Hr'.
  rewrite truthy_strip in Hr'. now destruct (blank (problem r)).
Qed.

Lemma life_keeps_ids_ascending_witness :
  exists t',
    table_of (life ascii_upper a_life started) = Some t' /\
    ids_ascending t' /\
    sqlite_sequence empty_table <= sqlite_sequence t' /\
    Forall (fun r => In r (rows empty_table) \/ sqlite_sequence empty_table < id r)
           (rows t').
Proof.
  apply (life_keeps_ids_ascending ascii_upper a_life started empty_table eq_refl).
  split; constructor.
Defined.

Lemma life_keeps_texts_valid_witness :
  exists t',
    table_of (life ascii_upper a_life started) = Some t' /\
    Forall (fun r => blank (problem r) = false) (rows t').
Proof.
  apply (life_keeps_texts_valid ascii_upper a_life started empty_table eq_refl).
  constructor.
Defined.

(** ** What the chat service is asked *)

(** [add_entry] depends on the chat service through one request only:
    the model mistral-large-latest, the policy as system message and the
    submitted text, untrimmed, as user message. Two environments that agree
    on the answer to that request, and on the uuid, the clock and the
    failures of sqlite, give the same response and the same world. For a
    text that passes validation the answer to that request decides: its
    exception is what the 500 reports, and a text answer other than YES
    gives the flagged body. *)
Theorem add_entry_asks_about_raw_text (upper : str -> str) (env : Env)
  (entry : ProblemEntry) (w : World) :
  let request : Messages :=
    [ (lit "system", system_prompt); (lit "user", entry_problem entry) ] in
  (forall env',
      chat_complete env' (lit "mistral-large-latest") request
      = chat_complete env (lit "mistral-large-latest") request ->
      uuid4 env' = uuid4 env ->
      CURRENT_TIMESTAMP env' = CURRENT_TIMESTAMP env ->
      execute_fault env' = execute_fault env ->
      commit_fault env' = commit_fault env ->
      add_entry upper env' entry w = add_entry upper env entry w) /\
  (forall e,
      blank (entry_problem entry) = false ->
      chat_complete env (lit "mistral-large-latest") request = Raise e ->
      fst (add_entry upper env entry w) = HTTPException 500 (database_error e)) /\
  (forall r,
      blank (entry_problem entry) = false ->
      chat_complete env (lit "mistral-large-latest") request = Return (Text r) ->
      upper r <> YES ->
      fst (add_entry upper env entry w) = Returned msg_flagged).
Proof.
  intro request. subst request. split; [|split].
  - intros env' Hc Hu Ht Hx Hk.
    unfold add_entry, add_entry_try, get_mistral_response, bind,
      execute_insert, commit, messages, mistral_large_latest.
    now rewrite Hc, Hu, Ht, Hx, Hk.
  - intros e Hb Hc.
    assert (Hv : truthy (strip (entry_problem entry)) = true)
      by now rewrite truthy_strip, Hb.
    now rewrite (add_entry_gate_raises upper env entry w Hv e Hc).
  - intros r Hb Hc Hy.
    assert (Hv : truthy (strip (entry_problem entry)) = true)
      by now rewrite truthy_strip, Hb.
    now rewrite (add_entry_flagged upper env entry w Hv r Hc Hy).
Qed.

(** A service that accepts one text only. *)
Lemma add_entry_asks_about_raw_text_witness :
  fst (add_entry ascii_upper (service (Raise (lit "timed out")) "7d0c" 100)
         padded started)
  = HTTPException 500 (database_error (lit "timed out")) /\
  add_entry ascii_upper
    {| chat_complete := fun model request =>
         if str_eqb (snd (last request ([], []))) (lit "  the lift is stuck  ")
         then says "YES" else says "NO";
       uuid4 := lit "7d0c"; CURRENT_TIMESTAMP := 100;
       execute_fault := None; commit_fault := None |}
    padded started
  = add_entry ascii_upper (service (says "YES") "7d0c" 100) padded started.
Proof.
  split.
  - exact (proj1 (proj2 (add_entry_asks_about_raw_text ascii_upper
                           (service (Raise (lit "timed out")) "7d0c" 100)
                           padded started))
             (lit "timed out") eq_refl eq_refl).
  - exact (proj1 (add_entry_asks_about_raw_text ascii_upper
                    (service (says "YES") "7d0c" 100) padded started)
             _ eq_refl eq_refl eq_refl eq_refl eq_refl).
Defined.

(** ** A file without the table *)

Lemma serve_without_table (upper : str -> str) (env : Env) (rq : Request)
  (w : World) :
  disk w = Some None -> disk (serve upper env rq w) = Some None.
Proof.
  intro Hd. assert (Ht : table_of w = None) by (unfold table_of; now rewrite Hd).
  destruct rq as [entry| |u|]; cbn [serve].
  - destruct (add_entry_paths upper env entry w)
      as [Hv|e Hv Hc|c Hv Hc Hn|r Hv Hc Hy|r e Hv Hc Hy Hf|r t Hv Hc Hy Hr Ht'];
      cbn [snd closed disk]; rewrite ?Ht; try reflexivity; try exact Hd.
    congruence.
  - unfold get_all_entries, bind, execute_select_ordered, connect, ret, close.
    cbn [conn file calls]. rewrite Ht. now destruct (execute_fault env).
  - unfold delete_entry, bind, execute_delete, commit, connect, ret, close.
    cbn [conn file calls]. rewrite Ht. now destruct (execute_fault env).
  - unfold get_all_data, execute_select_all, connect, close.
    cbn [conn file calls]. rewrite Ht. now destruct (execute_fault env).
Qed.

(** Nothing brings back a missing table: when [problems.db] exists and
    holds no table, it still does after any requests and restarts, since
    the handlers create no table and [init_db] only acts when the file is
    absent. *)
Theorem file_without_table_stays (upper : str -> str) (evs : list Event)
  (w : World) :
  disk w = Some None -> disk (life upper evs w) = Some None.
Proof.
  revert w. induction evs as [|[env rq|] rest IH]; intros w Hd; cbn [life].
  - exact Hd.
  - now apply IH, serve_without_table.
  - rewrite (init_db_keeps_file w None Hd). now apply IH.
Qed.

Lemma file_without_table_stays_witness :
  disk (life ascii_upper a_life empty_file) = Some None.
Proof. exact (file_without_table_stays ascii_upper a_life empty_file eq_refl). Defined.

(** Without the table (the file absent or empty) and with no other I/O
    failure, every handler that reaches its statement answers 500 with the
    detail "Database error: no such table: problems" and leaves a file
    without the table; for [add_entry] that is after the chat service
    accepted the text. *)
Theorem no_table_every_handler_500 (upper : str -> str) (env : Env) (w : World) :
  table_of w = None ->
  execute_fault env = None ->
  let failed (A : Type) (sent : list str) : http A * World :=
    (HTTPException 500 (lit "Database error: no such table: problems"),
     {| disk := Some None; gate_calls := (gate_calls w ++ sent)%list |}) in
  get_all_entries env w = failed (list EntryView) [] /\
  get_all_data env w = failed (list Row) [] /\
  (forall u, delete_entry env u w = failed Message []) /\
  (forall entry r,
      blank (entry_problem entry) = false ->
      reply env (entry_problem entry) = Return (Text r) ->
      upper r = YES ->
      add_entry upper env entry w = failed Message [entry_problem entry]).
Proof.
  intros Ht Hx failed. subst failed. cbv beta.
  assert (E : database_error no_such_table
              = lit "Database error: no such table: problems") by reflexivity.
  rewrite <- E. rewrite app_nil_r. repeat split.
  - unfold get_all_entries, bind, execute_select_ordered, connect, ret, close.
    cbn [conn file calls]. now rewrite Hx, Ht.
  - unfold get_all_data, execute_select_all, connect, close.
    cbn [conn file calls]. now rewrite Hx, Ht.
  - intro u.
    unfold delete_entry, bind, execute_delete, commit, connect, ret, close.
    cbn [conn file calls]. now rewrite Hx, Ht.
  - intros entry r Hb Hc Hy.
    assert (Hv : truthy (strip (entry_problem entry)) = true)
      by now rewrite truthy_strip, Hb.
    assert (Hf : insert_fails env entry w no_such_table).
    { eexists. unfold bind, execute_insert. cbn [conn file calls].
      now rewrite Hx, Ht. }
    rewrite (add_entry_insert_fails upper env entry w Hv r _ Hc Hy Hf).
    unfold closed. now rewrite Ht.
Qed.

Lemma no_table_every_handler_500_witness :
  get_all_entries (service (says "YES") "7d0c" 100) no_file
  = (HTTPException 500 (lit "Database error: no such table: problems"),
     {| disk := Some None; gate_calls := [] |}) /\
  add_entry ascii_upper (service (says "YES") "7d0c" 100) car no_file
  = (HTTPException 500 (lit "Database error: no such table: problems"),
     {| disk := Some None; gate_calls := [lit "My car won't start"] |}).
Proof.
  pose proof (no_table_every_handler_500 ascii_upper
                (service (says "YES") "7d0c" 100) no_file eq_refl eq_refl)
    as (H1 & _ & _ & H2).
  split; [exact H1|].
  exact (H2 car (lit "YES") eq_refl eq_refl eq_refl).
Defined.

(** ** Deleting, listing and dumping together *)

(** A deletion is all or nothing, with no rollback in the handler: either
    it answers success and the table is the one before without the rows of
    the uuid, or it answers 500 and the table is as it was (what the DELETE
    did is lost when the connection closes). It succeeds exactly when the
    table exists and neither the statement nor the commit fails, and it
    never calls the chat service. *)
Theorem delete_entry_all_or_nothing (env : Env) (u : str) (w : World) :
  ((exists t, table_of w = Some t /\
              delete_entry env u w
              = (Returned msg_deleted,
                 {| disk := Some (Some (without u t));
                    gate_calls := gate_calls w |})) \/
   (exists e, fst (delete_entry env u w) = HTTPException 500 (database_error e) /\
              table_of (snd (delete_entry env u w)) = table_of w)) /\
  (fst (delete_entry env u w) = Returned msg_deleted <->
   execute_fault env = None /\ commit_fault env = None /\ table_of w <> None) /\
  gate_calls (snd (delete_entry env u w)) = gate_calls w.
Proof.
  unfold delete_entry, bind, execute_delete, commit, committed, connect, ret,
    close.
  cbn [conn file calls].
  destruct (execute_fault env) as [e|].
  { split; [right; now exists e|]. split; [|reflexivity].
    split; [discriminate|]. now intros [H _]. }
  destruct (table_of w) as [t|] eqn:Ht.
  2: { split; [right; now exists no_such_table|]. split; [|reflexivity].
       split; [discriminate|]. now intros (_ & _ & H). }
  destruct (commit_fault env) as [e|].
  { split; [right; now exists e|]. split; [|reflexivity].
    split; [discriminate|]. now intros (_ & H & _). }
  split; [left; now exists t|]. split; [|reflexivity].
  split; [intros _; now repeat split|reflexivity].
Qed.

(** The listing is the dump, sorted and cut down to four fields: on any
    store and with any failure, [get_all_entries] fails exactly when
    [get_all_data] does, with the same error, and otherwise returns the
    rows of the dump in descending order of created_at, without their
    email and uuid. Both leave the same world behind: the table and the
    record of the chat calls are untouched. *)
Theorem listing_is_sorted_dump (env : Env) (w : World) :
  match fst (get_all_data env w) with
  | Returned dump =>
    fst (get_all_entries env w)
    = Returned (List.map view (order_by_created_at_desc dump))
  | HTTPException code detail =>
    fst (get_all_entries env w) = HTTPException code detail
  end /\
  snd (get_all_entries env w) = snd (get_all_data env w) /\
  table_of (snd (get_all_data env w)) = table_of w /\
  gate_calls (snd (get_all_data env w)) = gate_calls w.
Proof.
  unfold get_all_entries, get_all_data, bind, execute_select_ordered,
    execute_select_all, connect, ret, close.
  cbn [conn file calls].
  destruct (execute_fault env); [now repeat split|].
  destruct (table_of w); now repeat split.
Qed.

Lemma get_all_data_rows (env : Env) (w : World) (t : Table) :
  table_of w = Some t -> execute_fault env = None ->
  fst (get_all_data env w) = Returned (rows t).
Proof.
  intros Ht Hx. unfold get_all_data, execute_select_all, connect, close.
  cbn [conn file calls]. now rewrite Hx, Ht.
Qed.

Lemma get_all_entries_rows (env : Env) (w : World) (t : Table) :
  table_of w = Some t -> execute_fault env = None ->
  fst (get_all_entries env w)
  = Returned (List.map view (order_by_created_at_desc (rows t))).
Proof.
  intros Ht Hx.
  unfold get_all_entries, bind, execute_select_ordered, connect, ret, close.
  cbn [conn file calls]. now rewrite Hx, Ht.
Qed.

(** An accepted body comes back from the dump as it was sent: after
    [add_entry] answered success for the body (problem, name?, email?),
    [get_all_data] returns the rows of before followed by one new row, with
    the problem untouched, the name and the email of the body or their
    defaults "Anonymous" and "", the clock of the request, the uuid drawn
    for it, and an id above every id of before. *)
Theorem accepted_body_is_dumped (upper : str -> str) (env env' : Env)
  (p : str) (n e : option str) (w : World) :
  fst (add_entry upper env (parse_entry p n e) w) = Returned msg_added ->
  execute_fault env' = None ->
  exists dump i,
    fst (get_all_data env' w) = Returned dump /\
    fst (get_all_data env' (snd (add_entry upper env (parse_entry p n e) w)))
    = Returned (dump ++
        [ {| id := i;
             problem := p;
             name := match n with Some n => n | None => lit "Anonymous" end;
             email := match e with Some e => e | None => [] end;
             created_at := CURRENT_TIMESTAMP env;
             uuid := uuid4 env |} ]) /\
    Forall (fun r => id r < i) dump.
Proof.
  intros Ha Hx.
  destruct (add_entry_row_of_accepted upper env _ w Ha) as (t & Ht & Ht').
  exists (rows t), (largest_rowid t + 1).
  split; [now apply get_all_data_rows|].
  split; [now rewrite (get_all_data_rows env' _ _ Ht' Hx)|].
  apply Forall_forall. intros r Hr.
  pose proof (largest_rowid_ge_id t r Hr). lia.
Qed.

Lemma accepted_body_is_dumped_witness :
  exists dump i,
    fst (get_all_data (service (says "YES") "-" 101) started) = Returned dump /\
    fst (get_all_data (service (says "YES") "-" 101)
           (snd (add_entry ascii_upper (service (says "YES") "7d0c" 100)
                   (parse_entry (lit "My car won't start") None None) started)))
    = Returned (dump ++
        [ {| id := i; problem := lit "My car won't start";
             name := lit "Anonymous"; email := [];
             created_at := 100; uuid := lit "7d0c" |} ]) /\
    Forall (fun r => id r < i) dump.
Proof.
  exact (accepted_body_is_dumped ascii_upper (service (says "YES") "7d0c" 100)
           (service (says "YES") "-" 101) (lit "My car won't start") None None
           started eq_refl eq_refl).
Defined.

Lemma before_snoc {A : Type} (a b : A) (l : list A) :
  In a l -> before a b (l ++ [b]).
Proof.
  induction l as [|x l IH]; [intros []|]. intros [->|H]; cbn.
  - apply before_here. apply in_or_app. right. now left.
  - now apply before_later, IH.
Qed.

(** An accepted submission shows in the listing, once, at the place its
    created_at gives it: the listing after is the listing before plus the
    new entry, which comes after every entry that is not older than it
    (those of the same second included) and ahead of every older one. *)
Theorem accepted_entry_is_listed (upper : str -> str) (env env' : Env)
  (entry : ProblemEntry) (w : World) (t : Table) :
  table_of w = Some t ->
  fst (add_entry upper env entry w) = Returned msg_added ->
  execute_fault env' = None ->
  let r := new_row env entry t in
  let listed := order_by_created_at_desc (rows t ++ [r]) in
  fst (get_all_entries env' (snd (add_entry upper env entry w)))
  = Returned (List.map view listed) /\
  view r = {| view_id := largest_rowid t + 1;
              view_problem := entry_problem entry;
              view_name := entry_name entry;
              view_created_at := CURRENT_TIMESTAMP env |} /\
  Permutation (List.map view listed)
              (view r :: List.map view (order_by_created_at_desc (rows t))) /\
  (forall a, In a (rows t) ->
             (CURRENT_TIMESTAMP env <= created_at a -> before a r listed) /\
             (created_at a < CURRENT_TIMESTAMP env -> before r a listed)).
Proof.
  intros Ht Ha Hx r listed.
  destruct (add_entry_row_of_accepted upper env entry w Ha) as (t0 & Ht0 & Ht').
  rewrite Ht in Ht0. injection Ht0 as <-.
  split; [now rewrite (get_all_entries_rows env' _ _ Ht' Hx)|].
  split; [reflexivity|]. split.
  - change (view r :: List.map view (order_by_created_at_desc (rows t)))
      with (List.map view (r :: order_by_created_at_desc (rows t))).
    apply Permutation_map. subst listed. rewrite order_by_perm.
    rewrite <- Permutation_cons_append. constructor.
    symmetry. apply order_by_perm.
  - intros a Hin. split; intro Hc.
    + apply order_by_stable; [now apply before_snoc|exact Hc].
    + apply sorted_newer_first.
      * apply order_by_sorted.
      * apply (Permutation_in _ (Permutation_sym (order_by_perm _))).
        apply in_or_app. now left.
      * apply (Permutation_in _ (Permutation_sym (order_by_perm _))).
        apply in_or_app. right. now left.
      * cbn [r new_row created_at]. lia.
Qed.

Lemma accepted_entry_is_listed_witness :
  fst (get_all_entries (service (says "YES") "-" 101)
         (snd (add_entry ascii_upper (service (says "YES") "7d0c" 100) car started)))
  = Returned [ {| view_id := 1; view_problem := lit "My car won't start";
                  view_name := lit "Alice"; view_created_at := 100 |} ].
Proof.
  exact (proj1 (accepted_entry_is_listed ascii_upper
                  (service (says "YES") "7d0c" 100)
                  (service (says "YES") "-" 101) car started empty_table
                  eq_refl eq_refl eq_refl)).
Defined.

Lemma fold_max_bounded (a : Z) (l : list Z) :
  Forall (fun x => x <= a) l -> fold_right Z.max a l = a.
Proof.
  induction 1 as [|x l Hx Hl IH]; cbn; [reflexivity|]. rewrite IH. lia.
Qed.

Lemma delete_entry_without (env : Env) (u : str) (w : World) (t : Table) :
  table_of w = Some t ->
  execute_fault env = None ->
  commit_fault env = None ->
  delete_entry env u w
  = (Returned msg_deleted,
     {| disk := Some (Some (without u t)); gate_calls := gate_calls w |}).
Proof.
  intros Ht Hx Hk.
  unfold delete_entry, bind, execute_delete, commit, committed, connect, ret,
    close.
  cbn [conn file calls]. now rewrite Hx, Ht, Hk.
Qed.

Lemma filter_snoc_match (u : str) (l : list Row) (r : Row) :
  uuid r = u ->
  filter (fun x => negb (has_uuid u x)) (l ++ [r])
  = filter (fun x => negb (has_uuid u x)) l.
Proof.
  intro E. rewrite filter_app. cbn. unfold has_uuid at 2.
  rewrite (proj2 (str_eqb_eq (uuid r) u) E). cbn. apply app_nil_r.
Qed.

(** Deleting an entry by the uuid it was stored under takes it out again,
    together with any earlier row of the same uuid, but does not give its
    id back: the rows are those of before without that uuid (exactly the
    rows of before when the uuid was fresh), while the AUTOINCREMENT
    counter stays at the id of the deleted entry, so the next entry gets
    the id after it. *)
Theorem add_then_delete_keeps_counter (upper : str -> str) (env env' : Env)
  (entry : ProblemEntry) (w : World) :
  fst (add_entry upper env entry w) = Returned msg_added ->
  execute_fault env' = None ->
  commit_fault env' = None ->
  exists t t',
    table_of w = Some t /\
    table_of (snd (delete_entry env' (uuid4 env)
                     (snd (add_entry upper env entry w)))) = Some t' /\
    rows t' = filter (fun r => negb (has_uuid (uuid4 env) r)) (rows t) /\
    (~ In (uuid4 env) (stored_uuids w) -> rows t' = rows t) /\
    sqlite_sequence t' = largest_rowid t + 1 /\
    largest_rowid t' = largest_rowid t + 1.
Proof.
  intros Ha Hx Hk.
  destruct (add_entry_row_of_accepted upper env entry w Ha) as (t & Ht & Ht').
  rewrite (delete_entry_without env' (uuid4 env) _ _ Ht' Hx Hk).
  exists t. eexists. split; [exact Ht|]. split; [reflexivity|].
  unfold without. cbn [rows sqlite_sequence].
  rewrite filter_snoc_match by reflexivity.
  split; [reflexivity|]. split; [|split; [reflexivity|]].
  - intro Hn. apply keep_all_when_no_match. intros r Hr E. apply Hn.
    unfold stored_uuids. rewrite Ht. apply in_map_iff. now exists r.
  - unfold largest_rowid at 1. cbn [rows sqlite_sequence].
    apply fold_max_bounded. apply Forall_forall. intros x Hx'.
    apply in_map_iff in Hx' as (r & <- & Hr).
    apply filter_In in Hr as [Hr _].
    pose proof (largest_rowid_ge_id t r Hr). lia.
Qed.

Lemma add_then_delete_keeps_counter_witness :
  exists t t',
    table_of started = Some t /\
    table_of (snd (delete_entry (service (says "YES") "-" 130) (lit "7d0c")
                     (snd (add_entry ascii_upper
                             (service (says "YES") "7d0c" 100) car started))))
    = Some t' /\
    rows t' = filter (fun r => negb (has_uuid (lit "7d0c") r)) (rows t) /\
    (~ In (lit "7d0c") (stored_uuids started) -> rows t' = rows t) /\
    sqlite_sequence t' = largest_rowid t + 1 /\
    largest_rowid t' = largest_rowid t + 1.
Proof.
  exact (add_then_delete_keeps_counter ascii_upper
           (service (says "YES") "7d0c" 100) (service (says "YES") "-" 130)
           car started eq_refl eq_refl eq_refl).
Defined.

Lemma insert_desc_front (r : Row) (l : list Row) :
  Forall (fun x => created_at x <= created_at r) l -> insert_desc r l = r :: l.
Proof.
  intros [|x l' Hx _]; cbn; [reflexivity|].
  now rewrite (proj2 (Z.ltb_ge _ _) Hx).
Qed.

Lemma insert_desc_filter (keep : Row -> bool) (r : Row) (l : list Row) :
  StronglySorted not_older l ->
  filter keep (insert_desc r l)
  = if keep r then insert_desc r (filter keep l) else filter keep l.
Proof.
  induction 1 as [|x l Hs IH Hx]; cbn; [now destruct (keep r)|].
  destruct (created_at r <? created_at x) eqn:E; cbn.
  - rewrite IH. destruct (keep x), (keep r); cbn; rewrite ?E; reflexivity.
  - destruct (keep r) eqn:Er; [|reflexivity].
    apply Z.ltb_ge in E. symmetry. f_equal.
    change (insert_desc r (filter keep (x :: l)) = r :: filter keep (x :: l)).
    apply insert_desc_front. apply Forall_forall. intros y Hy.
    apply filter_In in Hy as [[<-|Hy] _]; [exact E|].
    pose proof (proj1 (Forall_forall _ _) Hx y Hy) as H.
    unfold not_older in H. lia.
Qed.

Lemma order_by_filter (keep : Row -> bool) (l : list Row) :
  order_by_created_at_desc (filter keep l)
  = filter keep (order_by_created_at_desc l).
Proof.
  induction l as [|r l IH]; [reflexivity|].
  change (order_by_created_at_desc (r :: l))
    with (insert_desc r (order_by_created_at_desc l)).
  rewrite insert_desc_filter by apply order_by_sorted.
  cbn [filter]. destruct (keep r); [|exact IH].
  change (order_by_created_at_desc (r :: filter keep l))
    with (insert_desc r (order_by_created_at_desc (filter keep l))).
  now rewrite IH.
Qed.

(** A deletion takes the entries of the uuid out of the listing and moves
    nothing else: the listing after [delete_entry] is the listing before,
    in the same order, without the rows of that uuid. *)
Theorem listing_after_delete (env env' : Env) (u : str) (w : World) (t : Table) :
  table_of w = Some t ->
  execute_fault env = None ->
  commit_fault env = None ->
  execute_fault env' = None ->
  fst (get_all_entries env' w)
  = Returned (List.map view (order_by_created_at_desc (rows t))) /\
  fst (get_all_entries env' (snd (delete_entry env u w)))
  = Returned (List.map view
                (filter (fun r => negb (has_uuid u r))
                        (order_by_created_at_desc (rows t)))).
Proof.
  intros Ht Hx Hk Hx'. split; [now apply get_all_entries_rows|].
  rewrite (delete_entry_without env u w t Ht Hx Hk). cbn [snd].
  rewrite (get_all_entries_rows env'
             {| disk := Some (Some (without u t)); gate_calls := gate_calls w |}
             (without u t) eq_refl Hx').
  unfold without. cbn [rows]. now rewrite order_by_filter.
Qed.

Lemma listing_after_delete_witness :
  fst (get_all_entries (service (says "YES") "-" 200)
         (snd (delete_entry (service (says "YES") "-" 190) (lit "uuid-A")
                 after_second)))
  = Returned [second_view].
Proof.
  exact (proj2 (listing_after_delete (service (says "YES") "-" 190)
                  (service (says "YES") "-" 200) (lit "uuid-A") after_second
                  {| rows :=
                       [ {| id := 1; problem := lit "A"; name := lit "Anonymous";
                            email := []; created_at := 100; uuid := lit "uuid-A" |};
                         {| id := 2; problem := lit "B"; name := lit "Anonymous";
                            email := []; created_at := 100; uuid := lit "uuid-B" |} ];
                     sqlite_sequence := 2 |}
                  eq_refl eq_refl eq_refl eq_refl)).
Defined.

Lemma add_entry_400_iff_blank_witness :
  fst (add_entry ascii_upper (service (says "YES") "7d0c" 100)
         (parse_entry (lit "   ") None None) started)
  = HTTPException 400 msg_empty /\
  blank (entry_problem car) = false.
Proof.
  split.
  - exact (proj2 (proj1 (add_entry_400_iff_blank ascii_upper
                           (service (says "YES") "7d0c" 100)
                           (parse_entry (lit "   ") None None) started))
             eq_refl).
  - exact (proj1 (proj2 (proj2 (add_entry_400_iff_blank ascii_upper
                                  (service (says "YES") "7d0c" 100) car started))
                    msg_added eq_refl)).
Defined.

Lemma add_entry_success_iff_stored_witness :
  stores_a_row started
    (snd (add_entry ascii_upper (service (says "YES") "7d0c" 100) car started)) /\
  table_of (snd (add_entry ascii_upper (service (says "NO") "7d0c" 100) car started))
  = table_of started.
Proof.
  split.
  - exact (proj1 (proj1 (add_entry_success_iff_stored ascii_upper
                           (service (says "YES") "7d0c" 100) car started))
             eq_refl).
  - apply (proj2 (add_entry_success_iff_stored ascii_upper
                    (service (says "NO") "7d0c" 100) car started)).
    intro H. discriminate H.
Defined.

Lemma delete_entry_all_or_nothing_witness :
  fst (delete_entry (service (says "YES") "-" 130) (lit "uuid-A") after_second)
  = Returned msg_deleted /\
  fst (delete_entry commit_fails (lit "uuid-A") after_second)
  <> Returned msg_deleted.
Proof.
  split.
  - apply (proj2 (proj1 (proj2 (delete_entry_all_or_nothing
                                  (service (says "YES") "-" 130) (lit "uuid-A")
                                  after_second)))).
    repeat split. discriminate.
  - intro H.
    apply (proj1 (proj1 (proj2 (delete_entry_all_or_nothing commit_fails
                                  (lit "uuid-A") after_second)))) in H.
    destruct H as (_ & H & _). discriminate H.
Defined.
